(** * Img2Video-creator: a shallow embedding of [image_processing.py]

    The module turns a still image or a video into a portrait video with
    captions.  This development embeds its functions and proves (or
    refutes) the properties its specification states about them.

    Conventions of the embedding.
    - A Python [str] is a [string]; a character is a code point in
      [0, 255] (an [ascii]).
    - Python [int]s are [Z].  Durations are Python [float]s: binary64
      numbers ([PrimFloat.float]) with the rounded operations of the
      machine.  The arithmetic on aspect ratios and the factor 0.85 is
      carried out on exact rationals ([Q]), [int(...)] truncating toward
      zero: it gives the value of the float computation wherever it is
      used below (the quotient 9/16, the tests against 9/16 and whether
      a scaled size reaches 1), not the last digit of every scaled size.
    - Exceptions are a [result] type; mutable PIL images live in a heap
      and are passed around by reference.
    - Pillow, moviepy and the decoders are collaborators: what the source
      relies on is an interface ([Pillow], [Media]), and the few library
      functions whose behaviour decides a property ([Image.resize],
      [concatenate_videoclips], [os.path.splitext], [re.split]) are
      embedded as the libraries define them. *)

From Stdlib Require Import ZArith QArith Qminmax Qround List String Ascii Bool Lia.
From Stdlib Require PrimFloat.
From Equations Require Import Equations.
From Equations.Prop Require Import Logic.
Import ListNotations.

Local Open Scope string_scope.
Local Open Scope Z_scope.

(* ===================================================================== *)
(** * Python string primitives                                            *)
(* ===================================================================== *)

Module PyStr.

(** [str.isspace] on one code point, which is also what [\s] matches in a
    [str] regular expression: tab..carriage return, the four separators
    0x1c..0x1f, space, NEL (0x85) and the no-break space (0xa0). *)
Definition is_space (c : ascii) : bool :=
  let n := N_of_ascii c in
  (((9 <=? n) && (n <=? 13)) || ((28 <=? n) && (n <=? 32))
   || (n =? 133) || (n =? 160))%N.

(** [bool(s)] for a string: true when it is not empty. *)
Definition truthy (s : string) : bool :=
  match s with EmptyString => false | String _ _ => true end.

(** [s.lstrip()]. *)
Fixpoint lstrip (s : string) : string :=
  match s with
  | EmptyString => EmptyString
  | String c s' => if is_space c then lstrip s' else s
  end.

(** [s.rstrip()]: a character is dropped when it is white and everything
    after it has been dropped. *)
Fixpoint rstrip (s : string) : string :=
  match s with
  | EmptyString => EmptyString
  | String c s' =>
      match rstrip s' with
      | EmptyString => if is_space c then EmptyString else String c EmptyString
      | r => String c r
      end
  end.

(** [s.strip()]. *)
Definition strip (s : string) : string := rstrip (lstrip s).

(** The longest prefix of white space, and what follows it. *)
Fixpoint span_space (s : string) : string * string :=
  match s with
  | EmptyString => (EmptyString, EmptyString)
  | String c s' =>
      if is_space c
      then let (ws, rest) := span_space s' in (String c ws, rest)
      else (EmptyString, s)
  end.

(** [s.split()] with no argument: the maximal runs of non-white
    characters, in order.  [cur] is the run being read. *)
Fixpoint split_go (cur : string) (s : string) : list string :=
  match s with
  | EmptyString => if truthy cur then [cur] else []
  | String c s' =>
      if is_space c
      then (if truthy cur then cur :: split_go EmptyString s'
            else split_go EmptyString s')
      else split_go (cur ++ String c EmptyString) s'
  end.

Definition split (s : string) : list string := split_go EmptyString s.

(** [str.lower] on one code point of [0, 255]: A..Z and the Latin-1
    capitals 0xc0..0xde (the multiplication sign 0xd7 apart) move up by
    32. *)
Definition lower_char (c : ascii) : ascii :=
  let n := N_of_ascii c in
  if (((65 <=? n) && (n <=? 90))
      || ((192 <=? n) && (n <=? 222) && negb (n =? 215)))%N
  then ascii_of_N (n + 32) else c.

Fixpoint lower (s : string) : string :=
  match s with
  | EmptyString => EmptyString
  | String c s' => String (lower_char c) (lower s')
  end.

(** Last character of a string, [d] when it is empty. *)
Fixpoint last_char (s : string) (d : option ascii) : option ascii :=
  match s with
  | EmptyString => d
  | String c s' => last_char s' (Some c)
  end.

(** First character of a string. *)
Definition first_char (s : string) : option ascii :=
  match s with EmptyString => None | String c _ => Some c end.

(** Every character of [s] satisfies [p]. *)
Fixpoint all_chars (p : ascii -> bool) (s : string) : bool :=
  match s with
  | EmptyString => true
  | String c s' => p c && all_chars p s'
  end.

(** The strings of a list, one after the other. *)
Fixpoint join (l : list string) : string :=
  match l with
  | [] => EmptyString
  | x :: l' => x ++ join l'
  end.

End PyStr.
Import PyStr.

(* ===================================================================== *)
(** * Sentence splitter                                                   *)
(* ===================================================================== *)

(** The character class [[.!?,]]. *)
Definition is_delim (c : ascii) : bool :=
  (Ascii.eqb c "." || Ascii.eqb c "!" || Ascii.eqb c "?" || Ascii.eqb c ",")%char.

(** The look-behind [(?<=[.!?,])] at a position whose previous character
    is [prev] ([None] at the start of the string). *)
Definition lookbehind (prev : option ascii) : bool :=
  match prev with Some c => is_delim c | None => false end.

(** One attempt of the pattern [(?<=[.!?,])\s*] at the current position:
    the look-behind must hold, [\s*] takes the longest run of white
    space, and with [must_advance] an empty match is refused (the
    scanner never reports two empty matches at one position).  The
    result is the matched text and the text after it. *)
Definition match_here (must_advance : bool) (prev : option ascii) (s : string)
  : option (string * string) :=
  if lookbehind prev then
    let (ws, rest) := span_space s in
    if must_advance && negb (truthy ws) then None else Some (ws, rest)
  else None.

(** [re.split(r'(?<=[.!?,])\s*', ...)] from a position of the subject:
    [piece] is the text read since the end of the last match, [s] what is
    left, [prev] the character before the position.  The scanner looks
    for the next match; the piece before it is cut off and the search
    resumes after the match, [must_advance] being set when the match was
    empty.  When no match is left the last piece is kept, even empty. *)
Equations? re_split_from (must_advance : bool) (prev : option ascii)
    (piece s : string) : list string
    by wf (2 * String.length s + (if must_advance then 0 else 1))%nat lt :=
  re_split_from must_advance prev piece s
    with inspect (match_here must_advance prev s) := {
    | exist _ (Some (ws, rest)) _ :=
        piece :: re_split_from (negb (truthy ws)) (last_char ws prev)
                               EmptyString rest
    | exist _ None _ with s := {
        | EmptyString := [piece]
        | String c s' :=
            re_split_from false (Some c) (piece ++ String c EmptyString) s' } }.
Proof.
  - unfold match_here in e. destruct (lookbehind prev); [|discriminate].
    assert (Hspan : forall t,
      (String.length (snd (span_space t)) <= String.length t)%nat
      /\ (truthy (fst (span_space t)) = true ->
          (String.length (snd (span_space t)) < String.length t)%nat)).
    { induction t as [|c t IH]; simpl; [split; [lia | discriminate]|].
      destruct (is_space c); simpl; [|split; [lia | discriminate]].
      destruct (span_space t); simpl in *. split; intros; lia. }
    destruct (Hspan s) as [Hle Hlt]. clear Hspan.
    destruct (span_space s) as [ws' rest']; simpl in *.
    destruct must_advance; simpl in *.
    + destruct (truthy ws') eqn:E; simpl in *; [|discriminate].
      inversion e; subst. rewrite E. simpl. specialize (Hlt eq_refl). lia.
    + inversion e; subst. destruct (truthy ws); simpl.
      * specialize (Hlt eq_refl). lia.
      * lia.
  - simpl. destruct must_advance; lia.
Qed.

Definition re_split (s : string) : list string :=
  re_split_from false None EmptyString s.

(** [split_sentences]: the pieces of the stripped text that are not
    empty, each stripped. *)
Definition split_sentences (text : string) : list string :=
  map strip (filter truthy (re_split (strip text))).

(** ** Notions used to state the shape of the pieces *)

(** The text with the white space that follows a delimiter removed;
    [after] tells whether the position follows a delimiter (and the white
    space after it). *)
Fixpoint squeeze (after : bool) (s : string) : string :=
  match s with
  | EmptyString => EmptyString
  | String c s' =>
      if after && is_space c then squeeze true s'
      else String c (squeeze (is_delim c) s')
  end.

Definition no_lead_space (s : string) : bool :=
  match first_char s with Some c => negb (is_space c) | None => true end.

Definition no_trail_space (s : string) : bool :=
  match last_char s None with Some c => negb (is_space c) | None => true end.

(** A delimiter occurs in [s] at most as its last character. *)
Fixpoint delim_last (s : string) : bool :=
  match s with
  | EmptyString => true
  | String c s' => if truthy s' then negb (is_delim c) && delim_last s' else true
  end.

Definition ends_with_delim (s : string) : bool := lookbehind (last_char s None).

(** [P] holds of every element that has a successor. *)
Fixpoint all_but_last {A} (P : A -> Prop) (l : list A) : Prop :=
  match l with
  | [] => True
  | x :: l' => (l' <> [] -> P x) /\ all_but_last P l'
  end.

(** What holds of the scanner's state between two searches. *)
Definition scan_inv (ma : bool) (prev : option ascii) (piece s : string) : Prop :=
  no_lead_space (piece ++ s) = true
  /\ no_trail_space (piece ++ s) = true
  /\ (piece = "" \/ last_char piece None = prev)
  /\ delim_last piece = true
  /\ (ma = true -> piece = "").

(** What holds of every piece cut off. *)
Definition piece_ok (p : string) : Prop :=
  no_lead_space p = true /\ no_trail_space p = true /\ delim_last p = true.


(* ===================================================================== *)
(** * Values, exceptions, collaborators                                   *)
(* ===================================================================== *)

Definition Color : Type := Z * Z * Z.
Definition Size : Type := Z * Z.

(** The Python exceptions that the embedded code can meet.
    [ReferenceError] stands for the use of a reference to no object,
    which no run of the program reaches. *)
Inductive exn : Type :=
| ValueError (msg : string)
| ZeroDivisionError
| OSError (msg : string)
| ReferenceError.

Inductive result (A : Type) : Type :=
| Ok (a : A)
| Raise (e : exn).
Arguments Ok {A} a.
Arguments Raise {A} e.

Definition rbind {A B} (r : result A) (k : A -> result B) : result B :=
  match r with Ok a => k a | Raise e => Raise e end.

Notation "x <-- c ;; k" := (rbind c (fun x => k))
  (at level 61, c at next level, right associativity).

(** ** Durations: binary64 floats *)

Definition float : Type := PrimFloat.float.

(** [float(n)] for an integer below [2^53] in absolute value: built by
    doubling, every step of which is exact in that range. *)
Fixpoint pos_to_float (p : positive) : float :=
  match p with
  | xH => PrimFloat.one
  | xO p' => PrimFloat.mul PrimFloat.two (pos_to_float p')
  | xI p' =>
      PrimFloat.add (PrimFloat.mul PrimFloat.two (pos_to_float p'))
                    PrimFloat.one
  end.

Definition Z_to_float (z : Z) : float :=
  match z with
  | Z0 => PrimFloat.zero
  | Zpos p => pos_to_float p
  | Zneg p => PrimFloat.opp (pos_to_float p)
  end.

(** [min(a, b)] on two floats: [b] when [b < a], else [a]. *)
Definition py_min (a b : float) : float :=
  if PrimFloat.ltb b a then b else a.

(** [sum(l)]: the additions are made from the left, starting from 0. *)
Definition py_sum (l : list float) : float :=
  fold_left PrimFloat.add l PrimFloat.zero.

(** ** Aspect ratios: exact rationals *)

(** [int(q)] truncates toward zero; [a / b] raises [ZeroDivisionError]
    on a zero divisor. *)
Definition py_int (q : Q) : Z := Z.quot (Qnum q) (Zpos (Qden q)).

Definition py_truediv (a b : Q) : result Q :=
  if Qeq_bool b 0 then Raise ZeroDivisionError else Ok (a / b)%Q.

Definition Qlt_bool (a b : Q) : bool := negb (Qle_bool b a).

(** What Pillow supplies and the source does not define: the pixel
    store, resampling, pasting, font loading, font metrics and glyph
    drawing. *)
Class Pillow : Type := {
  raster : Type;
  font : Type;
  (** [lanczos px old new]: [px] of size [old] resampled to size [new] *)
  lanczos : raster -> Size -> Size -> raster;
  (** a raster of one color *)
  solid : Size -> Color -> raster;
  (** [paste_at dst src xy] *)
  paste_at : raster -> raster -> Z * Z -> raster;
  (** [ImageFont.truetype(path, size)] *)
  truetype : string -> Z -> result font;
  (** [draw.textbbox((0, 0), text, font=font)]: left, top, right, bottom *)
  textbbox : font -> string -> Z * Z * Z * Z;
  (** [draw.text(xy, text, font=font, fill=color)] *)
  draw_text : raster -> Z * Z -> string -> font -> Color -> raster
}.

(** A PIL image, as a value: its size (width, height) and its pixels. *)
Record Image `{Pillow} : Type := { size : Size; pixels : raster }.

(** A moviepy clip made of frames, shown at a frame rate for a duration. *)
Record Clip `{Pillow} : Type :=
  { frames : list Image; fps : Z; clip_duration : float }.

(** The composition of clips played one after the other. *)
Inductive CompositeClip `{Pillow} : Type :=
| Composite (parts : list Clip).

(** What a call of [clip.write_videofile(path, ...)] does outside the
    program: the lines it prints on the console, whether it leaves a file
    at the path (complete when the call returns), and whether it returns
    or raises. *)
Record Written : Type :=
  { console : list string; file_left : bool; returned : result unit }.

(** What the decoders and the encoder supply:
    [Image.open(path).convert("RGB")], [VideoFileClip(path)], its
    [duration], the frames of
    [clip.subclip(a, b).iter_frames(fps=24, dtype='uint8')], and the
    effect of
    [clip.write_videofile(path, codec='libx264', bitrate="5000k", fps=24)]. *)
Class Media `{Pillow} : Type := {
  image_open : string -> result Image;
  video : Type;
  VideoFileClip : string -> result video;
  duration : video -> float;
  subclip_frames : video -> float -> float -> result (list Image);
  encode_videofile : CompositeClip -> string -> Written
}.

(* ===================================================================== *)
(** * Frame transformer                                                   *)
(* ===================================================================== *)

Section FrameTransformer.
Context `{Pillow}.

Definition size_eqb (a b : Size) : bool :=
  (fst a =? fst b) && (snd a =? snd b).

(** [Image.resize(size, LANCZOS)]: a copy when the size does not change;
    otherwise both dimensions must be at least 1. *)
Definition image_resize (im : Image) (sz : Size) : result Image :=
  if size_eqb (size im) sz then Ok im
  else if (fst sz <? 1) || (snd sz <? 1)
  then Raise (ValueError "height and width must be > 0")
  else Ok {| size := sz; pixels := lanczos (pixels im) (size im) sz |}.

(** [Image.new("RGB", size, color)]. *)
Definition image_new (sz : Size) (c : Color) : result Image :=
  if (fst sz <? 0) || (snd sz <? 0)
  then Raise (ValueError "Width and height must be >= 0")
  else Ok {| size := sz; pixels := solid sz c |}.

(** [dst.paste(src, xy)], as the new value of [dst]. *)
Definition image_paste (dst src : Image) (xy : Z * Z) : Image :=
  {| size := size dst; pixels := paste_at (pixels dst) (pixels src) xy |}.

Definition resize_to_aspect_ratio_with_zoom (image : Image)
    (target_aspect_ratio : Q) (target_resolution : Size) : result Image :=
  let '(original_width, original_height) := size image in
  original_aspect_ratio <--
    py_truediv (inject_Z original_width) (inject_Z original_height) ;;
  dims <--
    (if Qlt_bool original_aspect_ratio target_aspect_ratio then
       let new_height := snd target_resolution in
       let new_width := py_int (inject_Z new_height * original_aspect_ratio) in
       Ok (new_width, new_height)
     else
       let new_width := fst target_resolution in
       q <-- py_truediv (inject_Z new_width) original_aspect_ratio ;;
       Ok (new_width, py_int q)) ;;
  let '(new_width, new_height) := dims in
  resized_image <-- image_resize image (new_width, new_height) ;;
  new_image <-- image_new target_resolution (0, 0, 0) ;;
  let x_offset := (fst target_resolution - new_width) / 2 in
  let y_offset := (snd target_resolution - new_height) / 2 in
  Ok (image_paste new_image resized_image (x_offset, y_offset)).

Definition stretch_vertically_to_resolution (image : Image)
    (target_resolution : Size) : result Image :=
  image_resize image target_resolution.

(** The default target of both transformers and the ratio the callers
    pass. *)
Definition default_resolution : Size := (1080, 1920).
Definition default_aspect_ratio : Q := (9 # 16)%Q.

End FrameTransformer.

(* ===================================================================== *)
(** * Text layout engine                                                  *)
(* ===================================================================== *)

Section TextLayout.
Context `{Pillow}.

Definition text_width (f : font) (s : string) : Z :=
  let '(x0, _, x1, _) := textbbox f s in x1 - x0.

Definition text_height (f : font) (s : string) : Z :=
  let '(_, y0, _, y1) := textbbox f s in y1 - y0.

(** [int(image.size[0] * 0.85)]. *)
Definition max_width_of (width : Z) : Z :=
  py_int (inject_Z width * (85 # 100))%Q.

(** The loop over [words]: [lines] and [current_line] are the two
    variables it updates. *)
Fixpoint wrap_words (f : font) (max_width : Z) (words : list string)
    (lines : list string) (current_line : string) : list string * string :=
  match words with
  | [] => (lines, current_line)
  | word :: words' =>
      let test_line :=
        if truthy current_line then strip (current_line ++ " " ++ word)
        else word in
      let line_width := text_width f test_line in
      if line_width <=? max_width
      then wrap_words f max_width words' lines test_line
      else wrap_words f max_width words' (lines ++ [current_line]) word
  end.

(** The lines of [text]: the loop, then the last line when not empty. *)
Definition wrap_lines (f : font) (max_width : Z) (text : string) : list string :=
  let '(lines, current_line) := wrap_words f max_width (split text) [] "" in
  if truthy current_line then lines ++ [current_line] else lines.

Definition color_eqb (a b : Color) : bool :=
  let '(r1, g1, b1) := a in
  let '(r2, g2, b2) := b in
  (r1 =? r2) && (g1 =? g2) && (b1 =? b2).

Definition outline_color (text_color : Color) : Color :=
  if color_eqb text_color (0, 0, 0) then (255, 255, 255) else (0, 0, 0).

(** The pairs [(dx, dy)] of the two nested loops, [(0, 0)] left out. *)
Definition outline_offsets : list (Z * Z) :=
  flat_map (fun dx =>
    flat_map (fun dy =>
      if negb (dx =? 0) || negb (dy =? 0) then [(dx, dy)] else [])
      [-1; 0; 1])
    [-1; 0; 1].

(** The loop that draws the lines, top to bottom. *)
Fixpoint draw_lines (f : font) (px : raster) (width : Z) (y_position : Z)
    (lines : list string) (text_color : Color) : raster :=
  match lines with
  | [] => px
  | line :: lines' =>
      let x_position := (width - text_width f line) / 2 in
      let px1 :=
        fold_left (fun p d =>
          draw_text p (x_position + fst d, y_position + snd d) line f
                    (outline_color text_color))
          outline_offsets px in
      let px2 := draw_text px1 (x_position, y_position) line f text_color in
      draw_lines f px2 width (y_position + (text_height f line + 10))
                 lines' text_color
  end.

Definition sum_Z (l : list Z) : Z := fold_right Z.add 0 l.

(** What [add_centered_text_with_outline] does to the image it is given:
    the new value of that image. *)
Definition render_text (f : font) (image : Image) (text : string)
    (text_color : Color) : Image :=
  let max_width := max_width_of (fst (size image)) in
  let lines := wrap_lines f max_width text in
  let total_height :=
    sum_Z (map (text_height f) lines) + (Z.of_nat (List.length lines) - 1) * 10 in
  let y_position := (snd (size image) - total_height) / 2 in
  {| size := size image;
     pixels := draw_lines f (pixels image) (fst (size image)) y_position
                          lines text_color |}.

End TextLayout.

(* ===================================================================== *)
(** * [os.path.splitext]                                                  *)
(* ===================================================================== *)

Module OsPath.

Inductive platform : Type := Posix | Windows.

Definition sep (os : platform) : ascii :=
  match os with Posix => "/"%char | Windows => "\"%char end.

Definition altsep (os : platform) : option ascii :=
  match os with Posix => None | Windows => Some "/"%char end.

(** [s.rfind(c)]: the index of the last [c] in [s], [-1] when there is
    none.  [i] is the index of the first character of [s]. *)
Fixpoint rfind_from (c : ascii) (i found : Z) (s : string) : Z :=
  match s with
  | EmptyString => found
  | String x s' => rfind_from c (i + 1) (if Ascii.eqb x c then i else found) s'
  end.

Definition rfind (c : ascii) (s : string) : Z := rfind_from c 0 (-1) s.

(** The slices [p[:k]], [p[k:]] and [p[i:i+1]] for [0 <= k], [0 <= i]. *)
Definition take (k : Z) (p : string) : string := substring 0 (Z.to_nat k) p.

Definition drop (k : Z) (p : string) : string :=
  substring (Z.to_nat k) (String.length p - Z.to_nat k) p.

Definition char_at (i : Z) (p : string) : string := substring (Z.to_nat i) 1 p.

(** The loop of [genericpath._splitext] that skips the leading dots of
    the file name; [n] is the number of indices left before [dotIndex]. *)
Fixpoint skip_dots (n : nat) (p : string) (filenameIndex dotIndex : Z)
  : string * string :=
  match n with
  | O => (p, EmptyString)
  | S n' =>
      if negb (String.eqb (char_at filenameIndex p) ".")
      then (take dotIndex p, drop dotIndex p)
      else skip_dots n' p (filenameIndex + 1) dotIndex
  end.

(** [os.path.splitext(p)], that is [genericpath._splitext] with the
    separators of the platform. *)
Definition splitext (os : platform) (p : string) : string * string :=
  let sepIndex := rfind (sep os) p in
  let sepIndex :=
    match altsep os with
    | Some a => Z.max sepIndex (rfind a p)
    | None => sepIndex
    end in
  let dotIndex := rfind "."%char p in
  if sepIndex <? dotIndex
  then skip_dots (Z.to_nat (dotIndex - (sepIndex + 1))) p (sepIndex + 1) dotIndex
  else (p, EmptyString).

End OsPath.

(* ===================================================================== *)
(** * The world: image objects, console, output files                     *)
(* ===================================================================== *)

Section Pipelines.
Context `{Pillow} `{!Media}.

(** PIL images are mutable objects: the heap holds their current values
    and the program passes references (indices of the heap) around. *)
Definition ref : Type := nat.

Record World : Type := {
  heap : list Image;
  stdout : list string;
  files : list (string * CompositeClip)
}.

(** A computation changes the world and returns a value or raises. *)
Definition M (A : Type) : Type := World -> World * result A.

Definition ret {A} (a : A) : M A := fun w => (w, Ok a).

Definition bind {A B} (c : M A) (k : A -> M B) : M B :=
  fun w => match c w with
           | (w', Ok a) => k a w'
           | (w', Raise e) => (w', Raise e)
           end.

Definition lift {A} (r : result A) : M A := fun w => (w, r).

Notation "x <- c ;; k" := (bind c (fun x => k))
  (at level 61, c at next level, right associativity).

(** A new image object. *)
Definition alloc (im : Image) : M ref :=
  fun w => ({| heap := heap w ++ [im]; stdout := stdout w; files := files w |},
            Ok (List.length (heap w))).

(** The current value of an image object. *)
Definition deref (r : ref) : M Image :=
  fun w => match nth_error (heap w) r with
           | Some im => (w, Ok im)
           | None => (w, Raise ReferenceError)
           end.

Fixpoint update {A} (l : list A) (n : nat) (a : A) : list A :=
  match l, n with
  | [], _ => []
  | _ :: l', O => a :: l'
  | x :: l', S n' => x :: update l' n' a
  end.

(** An image object changed in place. *)
Definition store (r : ref) (im : Image) : M unit :=
  fun w => ({| heap := update (heap w) r im; stdout := stdout w;
               files := files w |}, Ok tt).

(** [image.copy()]: a new object with the same value. *)
Definition image_copy (r : ref) : M ref :=
  im <- deref r ;; alloc im.

(** [np.array(image)]: the pixels of the object at this moment. *)
Definition np_array (r : ref) : M Image := deref r.

(** [print(msg)]. *)
Definition print (msg : string) : M unit :=
  fun w => ({| heap := heap w; stdout := stdout w ++ [msg]; files := files w |},
            Ok tt).

(** [ImageSequenceClip(frames, fps=24)]: every frame lasts [1.0 / fps]
    and the duration of the clip is the [sum] of these. *)
Definition ImageSequenceClip (fr : list Image) (rate : Z) : Clip :=
  {| frames := fr; fps := rate;
     clip_duration :=
       py_sum (map (fun _ => PrimFloat.div PrimFloat.one (Z_to_float rate)) fr) |}.

Definition set_duration (c : Clip) (d : float) : Clip :=
  {| frames := frames c; fps := fps c; clip_duration := d |}.

(** [concatenate_videoclips(clips, method="compose")]: moviepy takes the
    maximum of the clips' sizes first, which raises on no clip. *)
Definition concatenate_videoclips (clips : list Clip) : result CompositeClip :=
  match clips with
  | [] => Raise (ValueError "max() arg is an empty sequence")
  | _ => Ok (Composite clips)
  end.

(** [final_clip.write_videofile(path, ...)]: the console and the files
    change as the encoder says, and the call returns or raises as it
    says. *)
Definition write_videofile (final_clip : CompositeClip) (path : string) : M unit :=
  fun w =>
    let o := encode_videofile final_clip path in
    ({| heap := heap w;
        stdout := stdout w ++ console o;
        files := if file_left o then files w ++ [(path, final_clip)]
                 else files w |},
     returned o).

(** ** Text rendering on an image object *)

(** The image object is drawn on in place and returned. *)
Definition add_centered_text_with_outline (image : ref) (text font_path : string)
    (font_size : Z) (text_color : Color) : M ref :=
  f <- lift (truetype font_path font_size) ;;
  im <- deref image ;;
  _ <- store image (render_text f im text text_color) ;;
  ret image.

(** ** Timeline composer *)

Definition transform (method : string) (im : Image) : result Image :=
  if String.eqb method "zoom"
  then resize_to_aspect_ratio_with_zoom im default_aspect_ratio default_resolution
  else stretch_vertically_to_resolution im default_resolution.

(** [total / len(sentences) if sentences else 0]: one float division. *)
Definition sentence_duration (total : float) (sentences : list string) : float :=
  match sentences with
  | [] => PrimFloat.zero
  | _ => PrimFloat.div total (Z_to_float (Z.of_nat (List.length sentences)))
  end.

(** The loop of the image path over the caption units. *)
Fixpoint image_clips (image : ref) (sentences : list string)
    (font_path : string) (font_size : Z) (text_color : Color)
    (d : float) : M (list Clip) :=
  match sentences with
  | [] => ret []
  | sentence :: rest =>
      c <- image_copy image ;;
      frame_image <-
        add_centered_text_with_outline c sentence font_path font_size text_color ;;
      frame_array <- np_array frame_image ;;
      let text_clip := set_duration (ImageSequenceClip [frame_array] 24) d in
      clips <- image_clips image rest font_path font_size text_color d ;;
      ret (text_clip :: clips)
  end.

Definition create_video_from_image_with_text
    (image_path output_video_path text font_path : string) (font_size : Z)
    (text_color : Color) (total_duration : float) (method : string) : M unit :=
  opened <- lift (image_open image_path) ;;
  transformed <- lift (transform method opened) ;;
  image <- alloc transformed ;;
  let sentences := split_sentences text in
  let d := sentence_duration total_duration sentences in
  clips <- image_clips image sentences font_path font_size text_color d ;;
  final_clip <- lift (concatenate_videoclips clips) ;;
  write_videofile final_clip output_video_path.

(** The time slice of the unit at position [i]:
    [i * sentence_duration] and [(i + 1) * sentence_duration]. *)
Definition time_slice (i : nat) (d : float) : float * float :=
  (PrimFloat.mul (Z_to_float (Z.of_nat i)) d,
   PrimFloat.mul (Z_to_float (Z.of_nat i + 1)) d).

(** The inner loop of the video path, over the frames of one slice. *)
Fixpoint frame_loop (source_frames : list Image) (sentence method font_path : string)
    (font_size : Z) (text_color : Color) : M (list Image) :=
  match source_frames with
  | [] => ret []
  | frame :: rest =>
      transformed <- lift (transform method frame) ;;
      frame_image <- alloc transformed ;;
      c <- image_copy frame_image ;;
      frame_with_text <-
        add_centered_text_with_outline c sentence font_path font_size text_color ;;
      arr <- np_array frame_with_text ;;
      arrs <- frame_loop rest sentence method font_path font_size text_color ;;
      ret (arr :: arrs)
  end.

(** The outer loop of the video path, from the unit at position [i]. *)
Fixpoint video_clips (video_clip : video) (i : nat) (sentences : list string)
    (method font_path : string) (font_size : Z) (text_color : Color)
    (d : float) : M (list Clip) :=
  match sentences with
  | [] => ret []
  | sentence :: rest =>
      let '(start_time, end_time) := time_slice i d in
      source_frames <- lift (subclip_frames video_clip start_time end_time) ;;
      frame_clips <-
        frame_loop source_frames sentence method font_path font_size text_color ;;
      clips <-
        video_clips video_clip (S i) rest method font_path font_size text_color d ;;
      ret (match frame_clips with
           | [] => clips
           | _ => ImageSequenceClip frame_clips 24 :: clips
           end)
  end.

Definition trimmed_clip_duration (total_duration : float) (video_clip : video)
  : float :=
  py_min total_duration (duration video_clip).

Definition create_video_from_video_with_text
    (video_path output_video_path text font_path : string) (font_size : Z)
    (text_color : Color) (total_duration : float) (method : string) : M unit :=
  video_clip <- lift (VideoFileClip video_path) ;;
  let sentences := split_sentences text in
  let d := sentence_duration (trimmed_clip_duration total_duration video_clip)
                             sentences in
  clips <- video_clips video_clip 0 sentences method font_path font_size
                       text_color d ;;
  match clips with
  | [] => print "No clips were created."
  | _ =>
      final_clip <- lift (concatenate_videoclips clips) ;;
      write_videofile final_clip output_video_path
  end.

(** ** Media source dispatcher *)

Definition image_extensions : list string :=
  [".jpg"; ".jpeg"; ".png"; ".bmp"; ".gif"].

Definition video_extensions : list string :=
  [".mp4"; ".mov"; ".avi"; ".mkv"; ".wmv"].

(** [x in l] for a list of strings. *)
Definition mem (x : string) (l : list string) : bool :=
  existsb (String.eqb x) l.

Definition raise {A} (e : exn) : M A := fun w => (w, Raise e).

(** [os] is the platform whose [os.path] the interpreter loads. *)
Definition create_video_from_media_with_text (os : OsPath.platform)
    (input_path output_video_path text font_path : string) (font_size : Z)
    (text_color : Color) (total_duration : float) (method : string) : M unit :=
  if mem (lower (snd (OsPath.splitext os input_path))) image_extensions then
    create_video_from_image_with_text input_path output_video_path text
      font_path font_size text_color total_duration method
  else if mem (lower (snd (OsPath.splitext os input_path))) video_extensions then
    create_video_from_video_with_text input_path output_video_path text
      font_path font_size text_color total_duration method
  else raise (ValueError "Unsupported file format").

End Pipelines.

(* ===================================================================== *)
(** * Notions used to state the properties                                *)
(* ===================================================================== *)


Section Notions.
Context `{Pillow}.

(** A line is fine when it fits the budget or is one word of the text. *)
Definition line_fits (f : font) (max_width : Z) (all_words : list string)
    (line : string) : Prop :=
  text_width f line <= max_width \/ In line all_words.

(** The clip that one round of the loop of the image path makes for the
    unit [sentence], from the value [base] of the base frame. *)
Definition unit_clip (f : font) (base : Image) (text_color : Color) (d : float)
    (sentence : string) : Clip :=
  set_duration (ImageSequenceClip [render_text f base sentence text_color] 24) d.

End Notions.

(** A small instance of the collaborators, to run the embedding on: the
    pixels are the list of the texts drawn, a font is its size, every
    glyph is [size / 2] wide and [size] high, every image file is a
    1920 by 1080 picture, every video lasts 3 seconds without frames
    to decode, and the encoder prints the lines of moviepy, leaves the
    file and returns. *)
Definition sample_pillow : Pillow :=
  {| raster := list (Z * Z * string * Color);
     font := Z;
     lanczos := fun px _ _ => px;
     solid := fun _ _ => [];
     paste_at := fun dst src _ => (dst ++ src)%list;
     truetype := fun _ sz => Ok sz;
     textbbox := fun f s => (0, 0, (f / 2) * Z.of_nat (String.length s), f);
     draw_text := fun px xy s _ c => (px ++ [(fst xy, snd xy, s, c)])%list |}.

Definition sample_media : @Media sample_pillow :=
  {| image_open := fun _ => Ok (@Build_Image sample_pillow (1920, 1080) []);
     video := unit;
     VideoFileClip := fun _ => Ok tt;
     duration := fun _ => Z_to_float 3;
     subclip_frames := fun _ _ _ => Ok [];
     encode_videofile := fun _ path =>
       {| console := ["Moviepy - Building video " ++ path ++ ".";
                      "Moviepy - Writing video " ++ path;
                      "";
                      "Moviepy - Done !";
                      "Moviepy - video ready " ++ path];
          file_left := true;
          returned := Ok tt |} |}.

Definition empty_world `{Pillow} : World :=
  {| heap := []; stdout := []; files := [] |}.

(** A source of 1080 by 1920 scaled by 2. *)
Definition sample_portrait : @Image sample_pillow :=
  @Build_Image sample_pillow (2160, 3840) [].

(** A world with one image object, the base frame. *)
Definition sample_base : @Image sample_pillow :=
  @Build_Image sample_pillow (1080, 1920) [].

Definition sample_world : @World sample_pillow :=
  {| heap := [sample_base]; stdout := []; files := [] |}.

(** The texts drawn on an image of the sample collaborators. *)
Definition texts_drawn (im : @Image sample_pillow) : list string :=
  map (fun d : Z * Z * string * Color => snd (fst d)) (@pixels sample_pillow im).

(* ===================================================================== *)
(** * Further notions: words, text block                                  *)
(* ===================================================================== *)

Definition not_delim (c : ascii) : bool := negb (is_delim c).
Definition not_space (c : ascii) : bool := negb (is_space c).

(** A word as [str.split] returns them: not empty, without white space. *)
Definition is_word (w : string) : Prop :=
  truthy w = true /\ all_chars not_space w = true.

(** A line under construction: empty, or words separated by one space;
    it has no white space at either end. *)
Definition clean_line (s : string) : Prop :=
  no_lead_space s = true /\ no_trail_space s = true.

Section Layout.
Context `{Pillow}.

(** Where the loop of [draw_lines] puts the lines: each line with the
    left and the top of its text, [y_position] being the top of the
    first one. *)
Fixpoint line_positions (f : font) (width y_position : Z) (lines : list string)
  : list (string * (Z * Z)) :=
  match lines with
  | [] => []
  | line :: lines' =>
      (line, ((width - text_width f line) / 2, y_position))
      :: line_positions f width (y_position + (text_height f line + 10)) lines'
  end.

(** One round of that loop: the eight outline copies, then the fill. *)
Definition draw_line (f : font) (text_color : Color) (px : raster)
    (p : string * (Z * Z)) : raster :=
  let '(line, (x, y)) := p in
  draw_text
    (fold_left (fun q d =>
                  draw_text q (x + fst d, y + snd d) line f
                            (outline_color text_color))
               outline_offsets px)
    (x, y) line f text_color.

(** [total_height] of [add_centered_text_with_outline]. *)
Definition block_height (f : font) (lines : list string) : Z :=
  sum_Z (map (text_height f) lines) + (Z.of_nat (List.length lines) - 1) * 10.

(** The lines of a caption on an image, with their positions. *)
Definition text_block (f : font) (image : Image) (text : string)
  : list (string * (Z * Z)) :=
  let lines := wrap_lines f (max_width_of (fst (size image))) text in
  line_positions f (fst (size image))
    ((snd (size image) - block_height f lines) / 2) lines.

End Layout.

(** The size to which the embedded letterbox-fit scales a [w] by [h]
    source for the default target, as integer divisions. *)
Definition letterbox_size (w h : Z) : Z * Z :=
  if 16 * w <? 9 * h then ((1920 * w) / h, 1920) else (1080, (1080 * h) / w).

Section Effects.
Context `{Pillow} `{!Media}.

(** A computation that leaves the console and the files alone. *)
Definition preserves_io {A} (c : M A) : Prop :=
  forall w, stdout (fst (c w)) = stdout w /\ files (fst (c w)) = files w.

(** A computation that leaves alone every image object that exists when
    it starts (it may create objects and change those). *)
Definition preserves_objects {A} (c : M A) : Prop :=
  forall w,
    (List.length (heap w) <= List.length (heap (fst (c w))))%nat
    /\ forall i, (i < List.length (heap w))%nat ->
                 nth_error (heap (fst (c w))) i = nth_error (heap w) i.

End Effects.

(** A character other than [c]. *)
Definition not_char (c x : ascii) : bool := negb (Ascii.eqb x c).

(** No separator of the platform. *)
Definition not_separator (os : OsPath.platform) (x : ascii) : bool :=
  not_char (OsPath.sep os) x
  && match OsPath.altsep os with Some a => not_char a x | None => true end.

(** [s] without its first [n] characters. *)
Fixpoint sdrop (n : nat) (s : string) : string :=
  match n, s with
  | O, _ => s
  | S n', EmptyString => EmptyString
  | S n', String _ s' => sdrop n' s'
  end.

(** ** Extensions without regard to the case of letters *)

Definition is_ascii_upper (c : ascii) : bool :=
  let n := N_of_ascii c in ((65 <=? n) && (n <=? 90))%N.

(** A lower-case ASCII letter or a digit. *)
Definition is_lower_alnum (c : ascii) : bool :=
  let n := N_of_ascii c in
  (((97 <=? n) && (n <=? 122)) || ((48 <=? n) && (n <=? 57)))%N.

(** The same character, or the same ASCII letter in the other case. *)
Definition char_eq_nocase (c d : ascii) : bool :=
  Ascii.eqb c d
  || (is_ascii_upper c && (N_of_ascii d =? N_of_ascii c + 32)%N)
  || (is_ascii_upper d && (N_of_ascii c =? N_of_ascii d + 32)%N).

(** The same text, the case of ASCII letters apart. *)
Fixpoint eq_nocase (a b : string) : bool :=
  match a, b with
  | EmptyString, EmptyString => true
  | String c a', String d b' => char_eq_nocase c d && eq_nocase a' b'
  | _, _ => false
  end.

(** The recognized extensions, without their dot. *)
Definition image_suffixes : list string := ["jpg"; "jpeg"; "png"; "bmp"; "gif"].
Definition video_suffixes : list string := ["mp4"; "mov"; "avi"; "mkv"; "wmv"].

(** All the characters. *)
Definition all_ascii : list ascii := map ascii_of_nat (seq 0 256).

(** A landscape picture of the sample collaborators. *)
Definition sample_landscape : @Image sample_pillow :=
  @Build_Image sample_pillow (1920, 1080) [].

(* ===================================================================== *)
(** * Sentence splitter: proofs                                           *)
(* ===================================================================== *)

Example split_sentences_ex1 :
  split_sentences "A. B! C, D" = ["A."; "B!"; "C,"; "D"].
Proof. reflexivity. Qed.

Example split_sentences_ex2 :
  split_sentences "  Wait...  what?!  " = ["Wait."; "."; "."; "what?"; "!"].
Proof. reflexivity. Qed.
Lemma delim_not_space c : is_delim c = true -> is_space c = false.
Proof.
  unfold is_delim. intros H.
  repeat (apply orb_prop in H; destruct H as [H|H]);
    apply Ascii.eqb_eq in H; subst; reflexivity.
Qed.

Lemma append_empty_r s : s ++ "" = s.
Proof. induction s; simpl; congruence. Qed.

Lemma append_assoc (a b c : string) : (a ++ b) ++ c = a ++ (b ++ c).
Proof. induction a; simpl; congruence. Qed.

Lemma last_char_app a b d : last_char (a ++ b) d = last_char b (last_char a d).
Proof. revert d. induction a; simpl; intros; auto. Qed.

Lemma last_char_some s c d : last_char (String c s) d = last_char (String c s) None.
Proof. reflexivity. Qed.

Lemma span_space_spec s ws rest :
  span_space s = (ws, rest) ->
  s = ws ++ rest /\ all_chars is_space ws = true /\ no_lead_space rest = true.
Proof.
  revert ws rest. induction s as [|c s IH]; simpl; intros ws rest H.
  - inversion H; subst. auto.
  - destruct (is_space c) eqn:E.
    + destruct (span_space s) as [ws' rest']. inversion H; subst.
      destruct (IH _ _ eq_refl) as (-> & Hall & Hlead). simpl. rewrite E. auto.
    + inversion H; subst. unfold no_lead_space. simpl. rewrite E. auto.
Qed.

Lemma squeeze_lead b s : no_lead_space s = true -> squeeze b s = squeeze false s.
Proof.
  destruct s as [|c s]; simpl; auto. unfold no_lead_space; simpl.
  intros H. apply negb_true_iff in H. rewrite H, andb_false_r. reflexivity.
Qed.

Lemma squeeze_spaces ws rest :
  all_chars is_space ws = true -> squeeze true (ws ++ rest) = squeeze true rest.
Proof.
  induction ws as [|c ws IH]; simpl; auto.
  intros H. apply andb_prop in H as [Hc Hws]. rewrite Hc. auto.
Qed.

Lemma match_here_some ma prev s ws rest :
  match_here ma prev s = Some (ws, rest) ->
  lookbehind prev = true /\ span_space s = (ws, rest)
  /\ (ma = true -> truthy ws = true).
Proof.
  unfold match_here. destruct (lookbehind prev); [|discriminate].
  destruct (span_space s) as [ws' rest']. destruct ma; simpl.
  - destruct (truthy ws') eqn:E; simpl; [|discriminate].
    intros H; inversion H; subst; auto.
  - intros H; inversion H; subst. repeat split; discriminate.
Qed.

Lemma match_here_none ma prev c s :
  match_here ma prev (String c s) = None ->
  lookbehind prev = false \/ (ma = true /\ is_space c = false).
Proof.
  unfold match_here. destruct (lookbehind prev); [|auto]. simpl.
  destruct (is_space c); [|destruct ma; simpl; [auto|discriminate]].
  destruct (span_space s). rewrite andb_false_r. discriminate.
Qed.

(** The pieces, one after the other, are the text without the white space
    that follows a delimiter. *)
Lemma re_split_from_join ma prev piece s :
  join (re_split_from ma prev piece s) = piece ++ squeeze (lookbehind prev) s.
Proof.
  funelim (re_split_from ma prev piece s).
  - destruct (match_here_some _ _ _ _ _ e) as (Hlb & Hsp & _).
    apply span_space_spec in Hsp as (-> & Hall & Hlead).
    simpl. rewrite H, Hlb. simpl. f_equal.
    rewrite squeeze_spaces by assumption.
    rewrite (squeeze_lead true), (squeeze_lead (lookbehind _)); auto.
  - reflexivity.
  - rewrite H, append_assoc. simpl. f_equal. f_equal.
    destruct (match_here_none _ _ _ _ e) as [-> | [_ Hc]]; simpl.
    + reflexivity.
    + rewrite Hc, andb_false_r. reflexivity.
Qed.


Lemma no_lead_space_app_l a b :
  no_lead_space (a ++ b) = true -> no_lead_space a = true.
Proof. destruct a; auto. Qed.

Lemma no_trail_space_app_r a b :
  no_trail_space (a ++ b) = true -> no_trail_space b = true.
Proof.
  unfold no_trail_space. rewrite last_char_app.
  destruct b as [|c b]; simpl; auto.
Qed.

Lemma no_trail_space_delim p :
  ends_with_delim p = true -> no_trail_space p = true.
Proof.
  unfold ends_with_delim, no_trail_space.
  destruct (last_char p None) as [c|]; simpl; auto.
  intros H. now rewrite (delim_not_space _ H).
Qed.

Lemma truthy_app_r a c : truthy (a ++ String c "") = true.
Proof. destruct a; reflexivity. Qed.

Lemma delim_last_snoc p c :
  all_chars (fun x => negb (is_delim x)) p = true ->
  delim_last (p ++ String c "") = true.
Proof.
  induction p as [|x p IH]; simpl; auto.
  intros H. apply andb_prop in H as [Hx Hp].
  rewrite truthy_app_r, Hx, IH; auto.
Qed.

Lemma delim_last_no_delim p :
  delim_last p = true -> ends_with_delim p = false ->
  all_chars (fun x => negb (is_delim x)) p = true.
Proof.
  unfold ends_with_delim.
  induction p as [|x p IH]; simpl; auto.
  destruct p as [|y p]; simpl in *.
  - intros _ ->. reflexivity.
  - intros H E. apply andb_prop in H as [Hx Hp]. rewrite Hx. simpl.
    apply IH; auto.
Qed.

Lemma scan_inv_step ma prev piece c s :
  scan_inv ma prev piece (String c s) ->
  match_here ma prev (String c s) = None ->
  scan_inv false (Some c) (piece ++ String c "") s.
Proof.
  intros (Hl & Ht & Hp & Hd & Hm) E. unfold scan_inv.
  rewrite append_assoc. simpl. repeat split; auto.
  - right. rewrite last_char_app. reflexivity.
  - apply delim_last_snoc.
    destruct (match_here_none _ _ _ _ E) as [Hlb | [-> _]].
    + destruct Hp as [-> | Hp]; [reflexivity|].
      apply delim_last_no_delim; auto. unfold ends_with_delim. now rewrite Hp.
    + rewrite Hm; reflexivity.
  - discriminate.
Qed.

Lemma scan_inv_match ma prev piece s ws rest :
  scan_inv ma prev piece s ->
  match_here ma prev s = Some (ws, rest) ->
  scan_inv (negb (truthy ws)) (last_char ws prev) "" rest
  /\ piece_ok piece /\ (piece <> "" -> ends_with_delim piece = true).
Proof.
  intros (Hl & Ht & Hp & Hd & Hm) E.
  destruct (match_here_some _ _ _ _ _ E) as (Hlb & Hsp & _).
  apply span_space_spec in Hsp as (-> & Hall & Hlead).
  assert (Hend : piece <> "" -> ends_with_delim piece = true).
  { intros Hne. destruct Hp as [-> | Hp]; [congruence|].
    unfold ends_with_delim. now rewrite Hp. }
  split; [|split]; auto.
  - unfold scan_inv. simpl. repeat split; auto.
    rewrite <- append_assoc in Ht. now apply no_trail_space_app_r in Ht.
  - repeat split; auto.
    + now apply no_lead_space_app_l in Hl.
    + destruct piece; [reflexivity|].
      apply no_trail_space_delim, Hend. discriminate.
Qed.

Lemma scan_inv_final ma prev piece :
  scan_inv ma prev piece "" -> piece_ok piece.
Proof.
  intros (Hl & Ht & Hp & Hd & Hm). rewrite append_empty_r in *.
  repeat split; auto.
Qed.

Lemma re_split_from_pieces ma prev piece s :
  scan_inv ma prev piece s ->
  Forall piece_ok (re_split_from ma prev piece s)
  /\ all_but_last (fun p => p <> "" -> ends_with_delim p = true)
       (re_split_from ma prev piece s).
Proof.
  funelim (re_split_from ma prev piece s); intros Hinv.
  - destruct (scan_inv_match _ _ _ _ _ _ Hinv e) as (Hnext & Hok & Hend).
    destruct (H Hnext) as [HF HA]. split.
    + constructor; auto.
    + simpl; auto.
  - split.
    + constructor; [|constructor]. eapply scan_inv_final; eauto.
    + simpl; split; [congruence | exact I].
  - apply H. eapply scan_inv_step; eauto.
Qed.

(** ** Facts on [strip] *)

Lemma rstrip_fixed s : no_trail_space s = true -> rstrip s = s.
Proof.
  unfold no_trail_space.
  induction s as [|c s IH]; simpl; auto.
  destruct s as [|d s].
  - simpl. intros H. apply negb_true_iff in H. now rewrite H.
  - intros H. rewrite IH by exact H.
    reflexivity.
Qed.

Lemma lstrip_fixed s : no_lead_space s = true -> lstrip s = s.
Proof.
  destruct s as [|c s]; simpl; auto. unfold no_lead_space; simpl.
  intros H. apply negb_true_iff in H. now rewrite H.
Qed.

Lemma strip_fixed s :
  no_lead_space s = true -> no_trail_space s = true -> strip s = s.
Proof. intros H1 H2. unfold strip. rewrite lstrip_fixed, rstrip_fixed; auto. Qed.

Lemma lstrip_lead s : no_lead_space (lstrip s) = true.
Proof.
  induction s as [|c s IH]; simpl; auto.
  destruct (is_space c) eqn:E; auto. unfold no_lead_space; simpl. now rewrite E.
Qed.

Lemma rstrip_trail s : no_trail_space (rstrip s) = true.
Proof.
  induction s as [|c s IH]; simpl; auto.
  destruct (rstrip s) as [|d r] eqn:E.
  - destruct (is_space c) eqn:Ec; auto. unfold no_trail_space; simpl. now rewrite Ec.
  - exact IH.
Qed.

Lemma rstrip_lead s : no_lead_space s = true -> no_lead_space (rstrip s) = true.
Proof.
  destruct s as [|c s]; simpl; auto. unfold no_lead_space; simpl.
  intros H. destruct (rstrip s).
  - apply negb_true_iff in H. rewrite H. simpl. now rewrite H.
  - exact H.
Qed.

Lemma strip_lead s : no_lead_space (strip s) = true.
Proof. apply rstrip_lead, lstrip_lead. Qed.

Lemma strip_trail s : no_trail_space (strip s) = true.
Proof. apply rstrip_trail. Qed.

(** ** From pieces to caption units *)

Lemma truthy_true s : truthy s = true <-> s <> "".
Proof. destruct s; simpl; split; intros; congruence. Qed.

Lemma strip_pieces l :
  Forall piece_ok l -> map strip (filter truthy l) = filter truthy l.
Proof.
  induction 1 as [|p l (Hl & Ht & _) _ IH]; simpl; auto.
  destruct (truthy p); simpl; auto. rewrite IH, strip_fixed; auto.
Qed.

Lemma join_filter l : join (filter truthy l) = join l.
Proof.
  induction l as [|p l IH]; simpl; auto.
  destruct p; simpl; congruence.
Qed.

Lemma all_but_last_filter (Q : string -> Prop) l :
  all_but_last (fun p => p <> "" -> Q p) l ->
  all_but_last Q (filter truthy l).
Proof.
  induction l as [|p l IH]; simpl; auto.
  intros [Hp Hl]. destruct (truthy p) eqn:E; simpl; auto.
  split; [|now apply IH]. intros Hne. apply Hp.
  - intros ->. apply Hne. reflexivity.
  - now apply truthy_true.
Qed.

Lemma scan_inv_init text : scan_inv false None "" (strip text).
Proof.
  unfold scan_inv; simpl.
  repeat split; auto using strip_lead, strip_trail; discriminate.
Qed.

Lemma lstrip_decompose s :
  exists lead, s = lead ++ lstrip s /\ all_chars is_space lead = true.
Proof.
  induction s as [|c s IH]; simpl.
  - exists "". auto.
  - destruct (is_space c) eqn:E.
    + destruct IH as (lead & Hs & Hl). exists (String c lead). simpl.
      rewrite E, Hl. split; [f_equal; exact Hs | reflexivity].
    + exists "". auto.
Qed.

Lemma rstrip_decompose s :
  exists trail, s = rstrip s ++ trail /\ all_chars is_space trail = true.
Proof.
  induction s as [|c s IH]; simpl.
  - exists "". auto.
  - destruct IH as (trail & Hs & Ht). destruct (rstrip s) as [|x r].
    + simpl in Hs. subst trail. destruct (is_space c) eqn:E.
      * exists (String c s). simpl. rewrite E, Ht. auto.
      * exists s. auto.
    + exists trail. simpl. split; [f_equal; exact Hs | exact Ht].
Qed.

(** The stripped text is the text between its leading and its trailing
    white space. *)
Lemma strip_decompose text :
  exists lead trail,
    text = lead ++ strip text ++ trail
    /\ all_chars is_space lead = true /\ all_chars is_space trail = true.
Proof.
  destruct (lstrip_decompose text) as (lead & Hl & Hlead).
  destruct (rstrip_decompose (lstrip text)) as (trail & Ht & Htrail).
  exists lead, trail. unfold strip. repeat split; auto.
  rewrite <- Ht. exact Hl.
Qed.

Lemma no_lead_space_not_blank u :
  u <> "" -> no_lead_space u = true -> all_chars is_space u = false.
Proof.
  destruct u as [|c u]; [congruence|]. intros _. unfold no_lead_space. simpl.
  intros H. apply negb_true_iff in H. now rewrite H.
Qed.

(** C2. [split_sentences] returns, in order, units that are not empty,
    neither start nor end with a white character (so none is white space
    only) and hold a delimiter [. ! ? ,] at most as their last
    character; every unit that is followed by another one ends with a
    delimiter; put together, the units are the text without its leading
    and trailing white space and without the white space that follows a
    delimiter.  The empty text gives no unit, and ["A. B! C, D"] gives
    ["A."], ["B!"], ["C,"], ["D"]. *)
Theorem split_sentences_units (text : string) :
  Forall (fun u => u <> ""
                   /\ no_lead_space u = true /\ no_trail_space u = true
                   /\ all_chars is_space u = false
                   /\ delim_last u = true)
         (split_sentences text)
  /\ all_but_last (fun u => ends_with_delim u = true) (split_sentences text)
  /\ (exists lead core trail,
        text = lead ++ core ++ trail
        /\ all_chars is_space lead = true /\ all_chars is_space trail = true
        /\ no_lead_space core = true /\ no_trail_space core = true
        /\ join (split_sentences text) = squeeze false core)
  /\ split_sentences "" = []
  /\ split_sentences "A. B! C, D" = ["A."; "B!"; "C,"; "D"].
Proof.
  unfold split_sentences at 1 2 3. unfold re_split.
  destruct (re_split_from_pieces _ _ _ _ (scan_inv_init text)) as [HF HA].
  rewrite (strip_pieces _ HF).
  split; [|split; [|split; [|split]]].
  - apply Forall_forall. intros u Hu. apply filter_In in Hu as [Hin Hne].
    rewrite Forall_forall in HF. destruct (HF _ Hin) as (Hl & Ht & Hd).
    apply truthy_true in Hne.
    repeat split; auto using no_lead_space_not_blank.
  - now apply all_but_last_filter.
  - destruct (strip_decompose text) as (lead & trail & Ht & Hlead & Htrail).
    exists lead, (strip text), trail.
    repeat split; auto using strip_lead, strip_trail.
    rewrite join_filter, re_split_from_join. reflexivity.
  - reflexivity.
  - reflexivity.
Qed.

(* ===================================================================== *)
(** * Text layout: wrapping and outline                                   *)
(* ===================================================================== *)

Section TextLayoutFacts.
Context `{Pillow}.
Variable f : font.
Variable max_width : Z.

(** The loop only appends to [lines]. *)
Lemma wrap_words_extends words lines current_line :
  exists more,
    fst (wrap_words f max_width words lines current_line) = (lines ++ more)%list.
Proof.
  revert lines current_line.
  induction words as [|word words IH]; intros lines current_line; simpl.
  - exists []. now rewrite app_nil_r.
  - destruct (_ <=? max_width).
    + apply IH.
    + destruct (IH (lines ++ [current_line])%list word) as [more Hm].
      exists (current_line :: more). rewrite Hm, <- app_assoc. reflexivity.
Qed.

Lemma wrap_words_fit all_words words lines current_line :
  text_width f "" <= max_width ->
  incl words all_words ->
  Forall (line_fits f max_width all_words) lines ->
  line_fits f max_width all_words current_line ->
  Forall (line_fits f max_width all_words)
         (fst (wrap_words f max_width words lines current_line))
  /\ line_fits f max_width all_words (snd (wrap_words f max_width words lines current_line)).
Proof.
  intros Hempty. revert lines current_line.
  induction words as [|word words IH]; intros lines current_line Hincl Hl Hc;
    simpl; auto.
  assert (Hword : In word all_words) by (apply Hincl; left; reflexivity).
  assert (Hrest : incl words all_words)
    by (intros x Hx; apply Hincl; right; exact Hx).
  destruct (_ <=? max_width) eqn:E.
  - apply IH; auto. left. now apply Z.leb_le.
  - apply IH; auto.
    + apply Forall_app; split; auto.
    + right; exact Hword.
Qed.

End TextLayoutFacts.

Lemma py_int_nonneg q : (0 <= q)%Q -> py_int q = Qfloor q.
Proof.
  destruct q as [n d]. unfold Qle, py_int, Qfloor. simpl. intros Hn.
  apply Z.quot_div_nonneg; lia.
Qed.

(** [int(width * 0.85)] is the floor of 85 hundredths of the width. *)
Lemma max_width_of_floor width :
  0 <= width -> max_width_of width = (85 * width) / 100.
Proof.
  intros Hw. unfold max_width_of, py_int.
  change (Qnum (inject_Z width * (85 # 100))) with (width * 85).
  change (Z.pos (Qden (inject_Z width * (85 # 100)))) with 100.
  rewrite Z.quot_div_nonneg by lia. f_equal. lia.
Qed.

Lemma max_width_of_nonneg width : 0 <= width -> 0 <= max_width_of width.
Proof.
  intros Hw. rewrite max_width_of_floor by assumption.
  apply Z.div_pos; lia.
Qed.

(** C3. Every line that the greedy wrap emits for a frame of width
    [width] measures at most [floor(0.85 * width)] pixels, unless it is
    exactly one word of the text, put alone on its line and never cut
    (the font measures the empty text as 0 wide, as Pillow's do). *)
Theorem wrap_lines_within_budget `{Pillow} (f : font) (width : Z) (text : string) :
  0 <= width ->
  text_width f "" = 0 ->
  max_width_of width = (85 * width) / 100
  /\ Forall (fun line =>
               text_width f line <= max_width_of width \/ In line (split text))
            (wrap_lines f (max_width_of width) text).
Proof.
  intros Hw Hempty. split; [now apply max_width_of_floor|].
  assert (H0 : text_width f "" <= max_width_of width).
  { rewrite Hempty. now apply max_width_of_nonneg. }
  unfold wrap_lines.
  destruct (wrap_words_fit f (max_width_of width) (split text) (split text) [] ""
              H0 (incl_refl _) (Forall_nil _) (or_introl H0)) as [HF Hc].
  destruct (wrap_words f (max_width_of width) (split text) [] "")
    as [lines current_line]; simpl in *.
  destruct (truthy current_line); auto.
  apply Forall_app; split; auto.
Qed.

(** C10. When the first word of the text alone is wider than the wrap
    budget, the first line emitted is the empty string: the current line,
    still empty, is flushed before the word starts its own line. *)
Theorem wrap_lines_first_line_empty `{Pillow} (f : font) (width : Z)
    (text word : string) (rest : list string) :
  split text = word :: rest ->
  max_width_of width < text_width f word ->
  exists more, wrap_lines f (max_width_of width) text = "" :: more.
Proof.
  intros Hs Hwide. unfold wrap_lines. rewrite Hs. simpl.
  apply Z.leb_gt in Hwide. rewrite Hwide.
  destruct (wrap_words_extends f (max_width_of width) rest [""] word)
    as [more Hm].
  destruct (wrap_words f (max_width_of width) rest [""] word)
    as [lines current_line]; simpl in *. subst lines.
  destruct (truthy current_line); eexists; reflexivity.
Qed.

Lemma color_eqb_eq (a b : Color) : color_eqb a b = true <-> a = b.
Proof.
  destruct a as [[r1 g1] b1], b as [[r2 g2] b2]. unfold color_eqb.
  rewrite !andb_true_iff, !Z.eqb_eq. split.
  - intros [[-> ->] ->]. reflexivity.
  - intros E. inversion E. auto.
Qed.

(** C7. The outline is white when the fill color is exactly black and
    black for every other fill color; it is never the fill color. *)
Theorem outline_color_contrast (text_color : Color) :
  ((text_color = (0, 0, 0) /\ outline_color text_color = (255, 255, 255))
   \/ (text_color <> (0, 0, 0) /\ outline_color text_color = (0, 0, 0)))
  /\ outline_color text_color <> text_color.
Proof.
  unfold outline_color. destruct (color_eqb text_color (0, 0, 0)) eqn:E.
  - apply color_eqb_eq in E. subst. split; [left; auto | discriminate].
  - assert (Hne : text_color <> (0, 0, 0)).
    { intros Heq. apply color_eqb_eq in Heq. congruence. }
    split; [right; auto | congruence].
Qed.

(* ===================================================================== *)
(** * Frame transformer                                                   *)
(* ===================================================================== *)

Section FrameFacts.
Context `{Pillow}.

Lemma size_eqb_eq (a b : Size) : size_eqb a b = true <-> a = b.
Proof.
  destruct a, b. unfold size_eqb. simpl.
  rewrite andb_true_iff, !Z.eqb_eq. split.
  - intros [-> ->]. reflexivity.
  - intros E. inversion E. auto.
Qed.

(** When [resize] returns, the image has the size asked for. *)
Lemma image_resize_size im sz im' :
  image_resize im sz = Ok im' -> size im' = sz.
Proof.
  unfold image_resize. destruct (size_eqb (size im) sz) eqn:E.
  - apply size_eqb_eq in E. intros H1. inversion H1. congruence.
  - destruct (_ || _); [discriminate|].
    intros H1. inversion H1; subst. reflexivity.
Qed.

(** [resize] returns exactly when the size asked for has no dimension
    below 1, or is the size of the image already. *)
Lemma image_resize_ok im sz :
  1 <= fst sz -> 1 <= snd sz -> exists im', image_resize im sz = Ok im'.
Proof.
  intros H1 H2. unfold image_resize. destruct (size_eqb (size im) sz); eauto.
  destruct (fst sz <? 1) eqn:E1; [apply Z.ltb_lt in E1; lia|].
  destruct (snd sz <? 1) eqn:E2; [apply Z.ltb_lt in E2; lia|].
  simpl. eauto.
Qed.

(** Stretch-to-fill always returns a frame of the default resolution. *)
Lemma stretch_dimensions im :
  exists im', stretch_vertically_to_resolution im default_resolution = Ok im'
              /\ size im' = default_resolution.
Proof.
  unfold stretch_vertically_to_resolution.
  destruct (image_resize_ok im default_resolution) as [im' E];
    [simpl; lia | simpl; lia |].
  exists im'. split; [exact E | eapply image_resize_size; eauto].
Qed.

(** When letterbox-fit returns, the frame has the target resolution. *)
Lemma letterbox_dimensions im ratio target im' :
  resize_to_aspect_ratio_with_zoom im ratio target = Ok im' ->
  size im' = target.
Proof.
  unfold resize_to_aspect_ratio_with_zoom.
  destruct (size im) as [w h].
  destruct (py_truediv (inject_Z w) (inject_Z h)) as [r|]; simpl; [|discriminate].
  match goal with |- context [rbind ?d _] => destruct d as [[nw nh]|] end;
    simpl; [|discriminate].
  destruct (image_resize im (nw, nh)); simpl; [|discriminate].
  unfold image_new. destruct (_ || _); simpl; [discriminate|].
  intros E. inversion E; subst. reflexivity.
Qed.

End FrameFacts.

(** C4, at a frame of 4000 by 1 pixels: letterbox-fit scales the height
    to [int(1080 / 4000.0) = 0] and [resize] refuses the size, so no
    frame of the target resolution is returned. *)
Theorem letterbox_flat_frame_raises `{Pillow} (px : raster) :
  resize_to_aspect_ratio_with_zoom {| size := (4000, 1); pixels := px |}
    default_aspect_ratio default_resolution
  = Raise (ValueError "height and width must be > 0").
Proof. reflexivity. Qed.

Lemma Qeq_bool_inject_Z_pos p : Qeq_bool (inject_Z (Z.pos p)) 0 = false.
Proof. reflexivity. Qed.

(** The quotient of two positive sizes, as a fraction. *)
Lemma aspect_ratio_fraction a b :
  (inject_Z (Z.pos a) / inject_Z (Z.pos b) == Z.pos a # b)%Q.
Proof. symmetry. apply Qmake_Qdiv. Qed.

Lemma same_ratio_not_narrower a b :
  16 * Z.pos a = 9 * Z.pos b ->
  Qlt_bool (inject_Z (Z.pos a) / inject_Z (Z.pos b)) default_aspect_ratio = false.
Proof.
  intros Hr. unfold Qlt_bool. apply negb_false_iff, Qle_bool_iff.
  rewrite aspect_ratio_fraction. unfold Qle, default_aspect_ratio.
  cbn [Qnum Qden]. lia.
Qed.

Lemma same_ratio_nonzero a b :
  Qeq_bool (inject_Z (Z.pos a) / inject_Z (Z.pos b)) 0 = false.
Proof.
  destruct (Qeq_bool _ 0) eqn:E; [|reflexivity].
  apply Qeq_bool_iff in E. rewrite aspect_ratio_fraction in E.
  unfold Qeq in E. cbn [Qnum Qden] in E. lia.
Qed.

Lemma same_ratio_height a b :
  16 * Z.pos a = 9 * Z.pos b ->
  py_int (inject_Z 1080 / (inject_Z (Z.pos a) / inject_Z (Z.pos b))) = 1920.
Proof.
  intros Hr.
  assert (Hq : (inject_Z 1080 / (inject_Z (Z.pos a) / inject_Z (Z.pos b))
                == inject_Z 1920)%Q).
  { rewrite aspect_ratio_fraction. unfold Qeq, Qdiv, Qmult, Qinv, inject_Z.
    cbn [Qnum Qden]. lia. }
  rewrite py_int_nonneg.
  - rewrite Hq. apply Qfloor_Z.
  - rewrite Hq. discriminate.
Qed.

(** C6. For a source frame whose aspect ratio is exactly 9/16,
    letterbox-fit scales to exactly 1080 by 1920 and pastes the scaled
    frame at offset (0, 0) of the canvas: there is no padding. *)
Theorem letterbox_same_ratio_no_padding `{Pillow} (im : Image) :
  0 < fst (size im) -> 0 < snd (size im) ->
  16 * fst (size im) = 9 * snd (size im) ->
  exists resized canvas,
    image_resize im (1080, 1920) = Ok resized
    /\ size resized = (1080, 1920)
    /\ image_new (1080, 1920) (0, 0, 0) = Ok canvas
    /\ size canvas = (1080, 1920)
    /\ resize_to_aspect_ratio_with_zoom im default_aspect_ratio default_resolution
       = Ok (image_paste canvas resized (0, 0)).
Proof.
  intros Hw Hh Hr.
  destruct (image_resize_ok im (1080, 1920)) as [resized E];
    [simpl; lia | simpl; lia |].
  exists resized, {| size := (1080, 1920); pixels := solid (1080, 1920) (0, 0, 0) |}.
  split; [exact E|]. split; [eapply image_resize_size; eauto|].
  split; [reflexivity|]. split; [reflexivity|].
  unfold resize_to_aspect_ratio_with_zoom.
  destruct (size im) as [w h]. cbn [fst snd] in Hw, Hh, Hr.
  destruct w as [|a|a]; try lia. destruct h as [|b|b]; try lia.
  unfold py_truediv at 1. rewrite Qeq_bool_inject_Z_pos. cbn [rbind].
  rewrite (same_ratio_not_narrower _ _ Hr).
  unfold default_resolution. cbn [fst snd].
  unfold py_truediv. rewrite same_ratio_nonzero. cbn [rbind].
  rewrite (same_ratio_height _ _ Hr), E. reflexivity.
Qed.

Lemma py_int_ge_1 q : (1 <= q)%Q -> 1 <= py_int q.
Proof.
  intros Hq. rewrite py_int_nonneg.
  - change 1 with (Qfloor (inject_Z 1)). now apply Qfloor_resp_le.
  - eapply Qle_trans; [|exact Hq]. discriminate.
Qed.

(** Letterbox-fit returns a frame of the default resolution for every
    source whose scaled width and height are at least one pixel. *)
Lemma letterbox_returns `{Pillow} (im : Image) :
  0 < fst (size im) -> 0 < snd (size im) ->
  snd (size im) <= 1920 * fst (size im) ->
  fst (size im) <= 1080 * snd (size im) ->
  exists im',
    resize_to_aspect_ratio_with_zoom im default_aspect_ratio default_resolution
    = Ok im' /\ size im' = default_resolution.
Proof.
  intros Hw Hh Hn Hf.
  cut (exists im', resize_to_aspect_ratio_with_zoom im default_aspect_ratio
                     default_resolution = Ok im').
  { intros [im' E]. exists im'. split; [exact E|].
    eapply letterbox_dimensions; eauto. }
  unfold resize_to_aspect_ratio_with_zoom.
  destruct (size im) as [w h]. cbn [fst snd] in Hw, Hh, Hn, Hf.
  destruct w as [|a|a]; try lia. destruct h as [|b|b]; try lia.
  unfold py_truediv at 1. rewrite Qeq_bool_inject_Z_pos. cbn [rbind].
  unfold default_resolution. cbn [fst snd].
  destruct (Qlt_bool _ _); cbn [rbind].
  - destruct (image_resize_ok im
      (py_int (inject_Z 1920 * (inject_Z (Z.pos a) / inject_Z (Z.pos b))), 1920))
      as [r Er]; cbn [fst snd]; [|lia|].
    + apply py_int_ge_1. rewrite aspect_ratio_fraction.
      unfold Qle, Qmult, inject_Z. cbn [Qnum Qden]. lia.
    + rewrite Er. cbn [rbind]. eexists. reflexivity.
  - unfold py_truediv. rewrite same_ratio_nonzero. cbn [rbind].
    destruct (image_resize_ok im
      (1080, py_int (inject_Z 1080 / (inject_Z (Z.pos a) / inject_Z (Z.pos b)))))
      as [r Er]; cbn [fst snd]; [lia| |].
    + apply py_int_ge_1. rewrite aspect_ratio_fraction.
      unfold Qle, Qdiv, Qmult, Qinv, inject_Z. cbn [Qnum Qden]. lia.
    + rewrite Er. cbn [rbind]. eexists. reflexivity.
Qed.

(* ===================================================================== *)
(** * Dispatcher                                                          *)
(* ===================================================================== *)

Lemma mem_In x l : mem x l = true <-> In x l.
Proof.
  unfold mem. rewrite existsb_exists. split.
  - intros (y & Hy & E). apply String.eqb_eq in E. now subst.
  - intros Hx. exists x. split; [exact Hx | apply String.eqb_refl].
Qed.

Lemma mem_not_In x l : mem x l = false <-> ~ In x l.
Proof.
  rewrite <- mem_In. destruct (mem x l); split; intros; congruence.
Qed.

Example splitext_upper_case :
  lower (snd (OsPath.splitext OsPath.Posix "shots/Photo.JPG")) = ".jpg".
Proof. reflexivity. Qed.

Example splitext_hidden_file :
  OsPath.splitext OsPath.Posix "shots/.jpg" = ("shots/.jpg", "").
Proof. reflexivity. Qed.

Example splitext_windows :
  OsPath.splitext OsPath.Windows "R:\clips.v2\Take.MoV" = ("R:\clips.v2\Take", ".MoV").
Proof. reflexivity. Qed.

(** The three branches of the dispatcher, on the extension that
    [splitext] returns, in lower case. *)
Lemma dispatcher_cases `{Pillow} `{!Media} (os : OsPath.platform)
    (input_path output_video_path text font_path : string) (font_size : Z)
    (text_color : Color) (total_duration : float) (method : string) (w : World) :
  let ext := lower (snd (OsPath.splitext os input_path)) in
  let run :=
    create_video_from_media_with_text os input_path output_video_path text
      font_path font_size text_color total_duration method w in
  (In ext image_extensions
   /\ run = create_video_from_image_with_text input_path output_video_path
              text font_path font_size text_color total_duration method w)
  \/ (~ In ext image_extensions /\ In ext video_extensions
      /\ run = create_video_from_video_with_text input_path output_video_path
                 text font_path font_size text_color total_duration method w)
  \/ (~ In ext image_extensions /\ ~ In ext video_extensions
      /\ run = (w, Raise (ValueError "Unsupported file format"))).
Proof.
  intros ext run. subst run. unfold create_video_from_media_with_text.
  fold ext. destruct (mem ext image_extensions) eqn:Ei.
  - left. split; [now apply mem_In | reflexivity].
  - apply mem_not_In in Ei. right.
    destruct (mem ext video_extensions) eqn:Ev.
    + left. repeat split; [exact Ei | now apply mem_In].
    + apply mem_not_In in Ev. right. repeat split; assumption.
Qed.

(* ===================================================================== *)
(** * Pipelines                                                           *)
(* ===================================================================== *)

Section PipelineFacts.
Context `{Pillow} `{!Media}.

(** ** No caption unit *)

(** The video path reports and writes nothing when there is no unit. *)
Lemma video_path_no_units video_path out text font_path font_size text_color
    total_duration method v (w : World) :
  VideoFileClip video_path = Ok v ->
  split_sentences text = [] ->
  create_video_from_video_with_text video_path out text font_path font_size
    text_color total_duration method w
  = ({| heap := heap w; stdout := (stdout w ++ ["No clips were created."])%list;
        files := files w |}, Ok tt).
Proof.
  intros Hv Hs. unfold create_video_from_video_with_text, bind, lift.
  rewrite Hv, Hs. reflexivity.
Qed.

(** The video path reports and writes nothing when its loop returns no
    clip (no unit, or no frame in any slice). *)
Lemma video_path_no_clips video_path out text font_path font_size text_color
    total_duration method v (w w' : World) :
  VideoFileClip video_path = Ok v ->
  video_clips v 0 (split_sentences text) method font_path font_size text_color
    (sentence_duration (trimmed_clip_duration total_duration v)
                       (split_sentences text)) w = (w', Ok []) ->
  create_video_from_video_with_text video_path out text font_path font_size
    text_color total_duration method w
  = ({| heap := heap w'; stdout := (stdout w' ++ ["No clips were created."])%list;
        files := files w' |}, Ok tt).
Proof.
  intros Hv Hc. unfold create_video_from_video_with_text, bind, lift.
  rewrite Hv, Hc. reflexivity.
Qed.

(** The image path hands the empty list of clips to
    [concatenate_videoclips]. *)
Lemma image_path_no_units image_path out text font_path font_size text_color
    total_duration method (w : World) :
  split_sentences text = [] ->
  let r := create_video_from_image_with_text image_path out text font_path
             font_size text_color total_duration method w in
  snd r = match image_open image_path with
          | Raise e => Raise e
          | Ok opened =>
              match transform method opened with
              | Raise e => Raise e
              | Ok _ => Raise (ValueError "max() arg is an empty sequence")
              end
          end
  /\ stdout (fst r) = stdout w /\ files (fst r) = files w.
Proof.
  intros Hs. unfold create_video_from_image_with_text, bind, lift.
  rewrite Hs. destruct (image_open image_path) as [opened|e]; simpl; auto.
  destruct (transform method opened) as [t|e]; simpl; auto.
Qed.

End PipelineFacts.

(** C1, on the image path with an empty caption text: no unit, no clip,
    and the run ends with an exception (the one of the decoder or of the
    transformer if they fail, else the [ValueError] of
    [concatenate_videoclips] on no clip), without the report that the
    video path prints. *)
Theorem image_path_empty_text_raises `{Pillow} `{!Media}
    (image_path out font_path : string) (font_size : Z) (text_color : Color)
    (total_duration : float) (method : string) (w : World) :
  let r := create_video_from_image_with_text image_path out "" font_path
             font_size text_color total_duration method w in
  (exists e, snd r = Raise e)
  /\ snd r = match image_open image_path with
             | Raise e => Raise e
             | Ok opened =>
                 match transform method opened with
                 | Raise e => Raise e
                 | Ok _ => Raise (ValueError "max() arg is an empty sequence")
                 end
             end
  /\ stdout (fst r) = stdout w /\ files (fst r) = files w.
Proof.
  intros r.
  destruct (image_path_no_units image_path out "" font_path font_size
              text_color total_duration method w eq_refl) as (Hr & Ho & Hf).
  fold r in Hr, Ho, Hf. repeat split; auto.
  rewrite Hr. destruct (image_open image_path) as [opened|e]; eauto.
  destruct (transform method opened); eauto.
Qed.

Example image_path_empty_text_sample :
  snd (@create_video_from_image_with_text sample_pillow sample_media
         "photo.jpg" "out.mp4" "" "font.ttf" 50 (0, 0, 0) (Z_to_float 15) "zoom" empty_world)
  = Raise (ValueError "max() arg is an empty sequence").
Proof. reflexivity. Qed.

Example video_path_empty_text_sample :
  @create_video_from_video_with_text sample_pillow sample_media
    "clip.mp4" "out.mp4" "" "font.ttf" 50 (0, 0, 0) (Z_to_float 15) "zoom" empty_world
  = ({| heap := []; stdout := ["No clips were created."]; files := [] |}, Ok tt).
Proof. reflexivity. Qed.

(* ===================================================================== *)
(** * Image objects: copies and the base frame                            *)
(* ===================================================================== *)

Section HeapFacts.
Context `{Pillow} `{!Media}.

Lemma update_length {A} (l : list A) n a :
  List.length (update l n a) = List.length l.
Proof.
  revert n. induction l as [|x l IH]; intros [|n]; simpl; auto.
Qed.

Lemma nth_error_update_other {A} (l : list A) n i a :
  i <> n -> nth_error (update l n a) i = nth_error l i.
Proof.
  revert n i. induction l as [|x l IH]; intros [|n] [|i] Hne; simpl; auto.
  congruence.
Qed.

Lemma nth_error_update_same {A} (l : list A) n a :
  (n < List.length l)%nat -> nth_error (update l n a) n = Some a.
Proof.
  revert n. induction l as [|x l IH]; intros [|n]; simpl; intros Hn;
    try lia; auto.
  apply IH. lia.
Qed.

Lemma nth_error_snoc_old {A} (l : list A) x i :
  (i < List.length l)%nat -> nth_error (l ++ [x]) i = nth_error l i.
Proof. intros Hi. now apply nth_error_app1. Qed.

Lemma nth_error_snoc_new {A} (l : list A) x :
  nth_error (l ++ [x]) (List.length l) = Some x.
Proof. rewrite nth_error_app2, Nat.sub_diag by lia. reflexivity. Qed.

(** [add_centered_text_with_outline] draws on the object it is given:
    after the call that object holds the rendered frame. *)
Lemma add_centered_text_in_place (image : ref) text font_path font_size
    text_color f im (w : World) :
  truetype font_path font_size = Ok f ->
  nth_error (heap w) image = Some im ->
  add_centered_text_with_outline image text font_path font_size text_color w
  = ({| heap := update (heap w) image (render_text f im text text_color);
        stdout := stdout w; files := files w |}, Ok image).
Proof.
  intros Hf Hi.
  unfold add_centered_text_with_outline, bind, lift, deref, store, ret.
  rewrite Hf. cbn [heap]. rewrite Hi. reflexivity.
Qed.

Lemma image_clips_spec (image : ref) (base : Image) font_path font_size
    text_color d sentences :
  forall w : World,
  nth_error (heap w) image = Some base ->
  let r := image_clips image sentences font_path font_size text_color d w in
  (forall i, (i < List.length (heap w))%nat ->
             nth_error (heap (fst r)) i = nth_error (heap w) i)
  /\ stdout (fst r) = stdout w /\ files (fst r) = files w
  /\ match truetype font_path font_size with
     | Ok f => snd r = Ok (map (unit_clip f base text_color d) sentences)
     | Raise e => snd r = match sentences with [] => Ok [] | _ => Raise e end
     end.
Proof.
  induction sentences as [|sentence rest IH]; intros w Hbase.
  - simpl. repeat split; auto. destruct (truetype font_path font_size); auto.
  - assert (Hlt : (image < List.length (heap w))%nat)
      by (apply nth_error_Some; congruence).
    cbn [image_clips].
    unfold bind at 1. unfold image_copy, bind, deref, alloc.
    rewrite Hbase. cbn [heap stdout files].
    unfold add_centered_text_with_outline, np_array, bind, lift, deref, store, ret.
    destruct (truetype font_path font_size) as [f|e] eqn:Hf.
    + cbn [heap stdout files]. rewrite nth_error_snoc_new.
      cbn [heap stdout files]. rewrite nth_error_update_same
        by (rewrite length_app; simpl; lia).
      set (w1 := {| heap := update (heap w ++ [base]) (List.length (heap w))
                              (render_text f base sentence text_color);
                    stdout := stdout w; files := files w |}).
      assert (Hold : forall i, (i < List.length (heap w))%nat ->
                               nth_error (heap w1) i = nth_error (heap w) i).
      { intros i Hi. unfold w1. cbn [heap].
        rewrite nth_error_update_other by lia. now apply nth_error_snoc_old. }
      assert (Hb1 : nth_error (heap w1) image = Some base)
        by (rewrite Hold; auto).
      specialize (IH w1 Hb1). cbn zeta in IH.
      destruct IH as (Hh & Ho & Hfi & Hr).
      fold (image_clips image rest font_path font_size text_color d).
      destruct (image_clips image rest font_path font_size text_color d w1)
        as [w2 [clips|e]]; cbn [fst snd] in *; try discriminate.
      inversion Hr; subst clips. repeat split; auto.
      intros i Hi. rewrite Hh.
      * now apply Hold.
      * unfold w1. cbn [heap]. rewrite update_length, length_app. simpl. lia.
    + cbn [fst snd heap stdout files]. repeat split; auto.
      intros i Hi. now apply nth_error_snoc_old.
Qed.

End HeapFacts.

(** C9. The loop of the image path draws every caption on a copy of the
    base frame: whatever the units, the base frame object (as every
    image object that existed before) holds the same pixels after the
    loop as before it, and the frame of each unit is its own text drawn
    on the pixels of the base frame, without the text of another unit. *)
Theorem base_frame_unchanged `{Pillow} `{!Media} (image : ref) (base : Image)
    (sentences : list string) (font_path : string) (font_size : Z)
    (text_color : Color) (d : float) (w : World) :
  nth_error (heap w) image = Some base ->
  let r := image_clips image sentences font_path font_size text_color d w in
  nth_error (heap (fst r)) image = Some base
  /\ (forall i, (i < List.length (heap w))%nat ->
                nth_error (heap (fst r)) i = nth_error (heap w) i)
  /\ match truetype font_path font_size with
     | Ok f => snd r = Ok (map (unit_clip f base text_color d) sentences)
     | Raise e => snd r = match sentences with [] => Ok [] | _ => Raise e end
     end.
Proof.
  intros Hbase r.
  destruct (image_clips_spec image base font_path font_size text_color d
              sentences w Hbase) as (Hh & _ & _ & Hr).
  fold r in Hh, Hr. repeat split; auto.
  rewrite Hh; auto. apply nth_error_Some. congruence.
Qed.

(* ===================================================================== *)
(** * The theorems at work on the sample collaborators                    *)
(* ===================================================================== *)

(** A font of size 20 (glyphs 10 wide) on a frame 100 wide: the budget
    is 85, the long word overflows alone on its line. *)
Example wrap_lines_sample :
  @wrap_lines sample_pillow 20 (max_width_of 100) "aa bbb cccccccccccc dd e"
  = ["aa bbb"; "cccccccccccc"; "dd e"].
Proof. reflexivity. Qed.

Example wrap_lines_wide_first_word :
  @wrap_lines sample_pillow 20 (max_width_of 100) "cccccccccccc dd"
  = [""; "cccccccccccc"; "dd"].
Proof. reflexivity. Qed.

Lemma wrap_lines_within_budget_witness :
  0 <= 100
  /\ @text_width sample_pillow 20 "" = 0
  /\ max_width_of 100 = (85 * 100) / 100
  /\ Forall (fun line =>
               @text_width sample_pillow 20 line <= max_width_of 100
               \/ In line (split "aa bbb cccccccccccc dd e"))
            (@wrap_lines sample_pillow 20 (max_width_of 100)
               "aa bbb cccccccccccc dd e").
Proof.
  split; [discriminate|]. split; [reflexivity|].
  apply (@wrap_lines_within_budget sample_pillow 20 100
           "aa bbb cccccccccccc dd e"); [discriminate | reflexivity].
Defined.

Lemma wrap_lines_first_line_empty_witness :
  split "cccccccccccc dd" = ["cccccccccccc"; "dd"]
  /\ max_width_of 100 < @text_width sample_pillow 20 "cccccccccccc"
  /\ exists more,
       @wrap_lines sample_pillow 20 (max_width_of 100) "cccccccccccc dd"
       = "" :: more.
Proof.
  split; [reflexivity|]. split; [reflexivity|].
  apply (@wrap_lines_first_line_empty sample_pillow 20 100 "cccccccccccc dd"
           "cccccccccccc" ["dd"]); reflexivity.
Defined.

Lemma letterbox_same_ratio_no_padding_witness :
  0 < fst (size sample_portrait)
  /\ 0 < snd (size sample_portrait)
  /\ 16 * fst (size sample_portrait) = 9 * snd (size sample_portrait)
  /\ exists resized canvas,
       image_resize sample_portrait (1080, 1920) = Ok resized
       /\ size resized = (1080, 1920)
       /\ image_new (1080, 1920) (0, 0, 0) = Ok canvas
       /\ size canvas = (1080, 1920)
       /\ resize_to_aspect_ratio_with_zoom sample_portrait default_aspect_ratio
            default_resolution
          = Ok (image_paste canvas resized (0, 0)).
Proof.
  split; [reflexivity|]. split; [reflexivity|]. split; [reflexivity|].
  apply (@letterbox_same_ratio_no_padding sample_pillow sample_portrait);
    reflexivity.
Defined.

Lemma base_frame_unchanged_witness :
  nth_error (heap sample_world) 0%nat = Some sample_base
  /\ nth_error
       (heap (fst (@image_clips sample_pillow 0%nat ["Hi."; "Yo!"] "font.ttf" 50
                     (255, 255, 255) (Z_to_float 5) sample_world))) 0%nat
     = Some sample_base.
Proof.
  split; [reflexivity|].
  exact (proj1 (@base_frame_unchanged sample_pillow sample_media 0%nat sample_base
                  ["Hi."; "Yo!"] "font.ttf" 50 (255, 255, 255) (Z_to_float 5) sample_world
                  eq_refl)).
Defined.

(** The two frames of that run: each holds its own caption only. *)
Example image_clips_sample :
  map (fun c => map texts_drawn (@frames sample_pillow c))
      (match snd (@image_clips sample_pillow 0%nat ["Hi."; "Yo!"] "font.ttf" 50
                    (255, 255, 255) (Z_to_float 5) sample_world) with
       | Ok clips => clips
       | Raise _ => []
       end)
  = [[["Hi."; "Hi."; "Hi."; "Hi."; "Hi."; "Hi."; "Hi."; "Hi."; "Hi."]];
     [["Yo!"; "Yo!"; "Yo!"; "Yo!"; "Yo!"; "Yo!"; "Yo!"; "Yo!"; "Yo!"]]].
Proof. reflexivity. Qed.

(** The dispatcher on three paths. *)
Example dispatcher_unsupported :
  @create_video_from_media_with_text sample_pillow sample_media OsPath.Posix
    "notes.txt" "out.mp4" "Hello." "font.ttf" 50 (0, 0, 0) (Z_to_float 15) "zoom" empty_world
  = (empty_world, Raise (ValueError "Unsupported file format")).
Proof. reflexivity. Qed.

Example dispatcher_video_upper_case :
  @create_video_from_media_with_text sample_pillow sample_media OsPath.Posix
    "clip.MOV" "out.mp4" "" "font.ttf" 50 (0, 0, 0) (Z_to_float 15) "zoom" empty_world
  = ({| heap := []; stdout := ["No clips were created."]; files := [] |}, Ok tt).
Proof. reflexivity. Qed.

(* ===================================================================== *)
(** * Sentence splitter: when there is no unit, one unit, and re-splitting *)
(* ===================================================================== *)

(** The scanner, unfolded once. *)
Lemma re_split_from_eq ma prev piece s :
  re_split_from ma prev piece s =
  match match_here ma prev s with
  | Some (ws, rest) =>
      piece :: re_split_from (negb (truthy ws)) (last_char ws prev) "" rest
  | None =>
      match s with
      | "" => [piece]
      | String c s' => re_split_from false (Some c) (piece ++ String c "") s'
      end
  end.
Proof.
  funelim (re_split_from ma prev piece s); rewrite e; reflexivity.
Qed.

(** The units are the pieces that are not empty, as they are. *)
Lemma split_sentences_pieces text :
  split_sentences text = filter truthy (re_split (strip text))
  /\ Forall piece_ok (re_split (strip text))
  /\ join (split_sentences text) = squeeze false (strip text).
Proof.
  unfold split_sentences, re_split.
  destruct (re_split_from_pieces _ _ _ _ (scan_inv_init text)) as [HF _].
  rewrite (strip_pieces _ HF). repeat split; auto.
  rewrite join_filter, re_split_from_join. reflexivity.
Qed.

Lemma lstrip_spaces s : all_chars is_space s = true -> lstrip s = "".
Proof.
  induction s as [|c s IH]; simpl; auto.
  intros H. apply andb_prop in H as [Hc Hs]. rewrite Hc. auto.
Qed.

Lemma lstrip_empty s : lstrip s = "" -> all_chars is_space s = true.
Proof.
  induction s as [|c s IH]; simpl; auto.
  destruct (is_space c); [simpl; auto | discriminate].
Qed.

Lemma rstrip_empty s : rstrip s = "" -> all_chars is_space s = true.
Proof.
  induction s as [|c s IH]; simpl; auto.
  destruct (rstrip s); [|discriminate].
  destruct (is_space c); [simpl; auto | discriminate].
Qed.

Lemma strip_empty_iff s : strip s = "" <-> all_chars is_space s = true.
Proof.
  unfold strip. split.
  - intros H. apply rstrip_empty in H. apply lstrip_empty.
    pose proof (lstrip_lead s) as Hl. destruct (lstrip s) as [|c t]; auto.
    unfold no_lead_space in Hl. simpl in *.
    apply andb_prop in H as [Hc _]. rewrite Hc in Hl. discriminate.
  - intros H. now rewrite lstrip_spaces.
Qed.

Lemma squeeze_false_empty s : squeeze false s = "" -> s = "".
Proof. destruct s; simpl; [auto | discriminate]. Qed.

(** X1. [split_sentences] returns no unit exactly for a text of white
    space only (the empty text included). *)
Theorem split_sentences_nil_iff (text : string) :
  split_sentences text = [] <-> all_chars is_space text = true.
Proof.
  split.
  - intros E. destruct (split_sentences_pieces text) as (_ & _ & Hj).
    rewrite E in Hj. simpl in Hj. symmetry in Hj.
    apply squeeze_false_empty in Hj. now apply strip_empty_iff.
  - intros H. apply strip_empty_iff in H.
    unfold split_sentences. rewrite H. reflexivity.
Qed.

Lemma re_split_from_no_delim s :
  forall ma prev piece,
  lookbehind prev = false -> all_chars not_delim s = true ->
  re_split_from ma prev piece s = [piece ++ s].
Proof.
  induction s as [|c s IH]; intros ma prev piece Hp Hs;
    rewrite re_split_from_eq; unfold match_here; rewrite Hp.
  - now rewrite append_empty_r.
  - simpl in Hs. apply andb_prop in Hs as [Hc Hs].
    rewrite IH; auto.
    + now rewrite append_assoc.
    + simpl. unfold not_delim in Hc. now apply negb_true_iff in Hc.
Qed.

Lemma re_split_from_delim_end body d :
  forall ma prev piece,
  lookbehind prev = false -> all_chars not_delim body = true ->
  is_delim d = true ->
  re_split_from ma prev piece (body ++ String d "")
  = [piece ++ body ++ String d ""; ""].
Proof.
  induction body as [|c body IH]; intros ma prev piece Hp Hb Hd;
    rewrite re_split_from_eq; unfold match_here; rewrite Hp; simpl.
  - rewrite re_split_from_eq. unfold match_here. simpl. rewrite Hd. simpl.
    rewrite re_split_from_eq. unfold match_here. simpl. rewrite Hd. simpl.
    reflexivity.
  - simpl in Hb. apply andb_prop in Hb as [Hc Hb].
    rewrite IH; auto.
    + now rewrite append_assoc.
    + simpl. unfold not_delim in Hc. now apply negb_true_iff in Hc.
Qed.

Lemma all_chars_lstrip p s : all_chars p s = true -> all_chars p (lstrip s) = true.
Proof.
  induction s as [|c s IH]; simpl; auto.
  intros H. destruct (is_space c); [|exact H].
  apply andb_prop in H as [_ H]. auto.
Qed.

Lemma all_chars_rstrip p s : all_chars p s = true -> all_chars p (rstrip s) = true.
Proof.
  induction s as [|c s IH]; simpl; auto.
  intros H. apply andb_prop in H as [Hc Hs]. specialize (IH Hs).
  destruct (rstrip s) as [|x r].
  - destruct (is_space c); simpl; auto. now rewrite Hc.
  - simpl in *. now rewrite Hc, IH.
Qed.

(** X2. A text without any of [. ! ? ,] that is not blank is one unit:
    the stripped text. *)
Theorem split_sentences_no_delimiter (text : string) :
  all_chars not_delim text = true ->
  strip text <> "" ->
  split_sentences text = [strip text].
Proof.
  intros Hd Hne. unfold split_sentences, re_split.
  rewrite re_split_from_no_delim; auto.
  - simpl. destruct (strip text) as [|c t] eqn:E; [congruence|].
    simpl. rewrite <- E. f_equal.
    apply strip_fixed; [apply strip_lead | apply strip_trail].
  - unfold strip. now apply all_chars_rstrip, all_chars_lstrip.
Qed.

Lemma string_snoc s :
  s <> "" -> exists body c, s = body ++ String c "" /\ last_char s None = Some c.
Proof.
  induction s as [|x s IH]; [congruence|]. intros _.
  destruct s as [|y s].
  - exists "", x. auto.
  - destruct IH as (body & c & E & L); [discriminate|].
    exists (String x body), c. simpl in *. rewrite E. split; [reflexivity|].
    rewrite <- L. reflexivity.
Qed.

Lemma delim_last_snoc_inv body d :
  delim_last (body ++ String d "") = true -> all_chars not_delim body = true.
Proof.
  induction body as [|x body IH]; simpl; auto.
  rewrite truthy_app_r. intros H. apply andb_prop in H as [Hx Hb].
  unfold not_delim at 1. rewrite Hx. auto.
Qed.

(** X3. Splitting is stable: every unit returned, split again, gives
    that unit alone. *)
Theorem split_sentences_unit_stable (text u : string) :
  In u (split_sentences text) -> split_sentences u = [u].
Proof.
  intros Hin. destruct (split_sentences_pieces text) as (E & HF & _).
  rewrite E in Hin. apply filter_In in Hin as [Hin Hne].
  rewrite Forall_forall in HF. destruct (HF _ Hin) as (Hl & Ht & Hd).
  assert (Hs : strip u = u) by now apply strip_fixed.
  unfold split_sentences, re_split. rewrite Hs.
  destruct (ends_with_delim u) eqn:Ee.
  - destruct (string_snoc u) as (body & d & Eu & Ld); [now apply truthy_true|].
    unfold ends_with_delim in Ee. rewrite Ld in Ee. simpl in Ee.
    assert (Hb : all_chars not_delim body = true).
    { apply (delim_last_snoc_inv body d). now rewrite <- Eu. }
    rewrite Eu at 1. rewrite re_split_from_delim_end; auto.
    simpl. rewrite <- Eu. destruct u; [discriminate|]. simpl. now rewrite Hs.
  - rewrite re_split_from_no_delim; auto.
    + simpl. destruct u; [discriminate|]. simpl. now rewrite Hs.
    + apply delim_last_no_delim; auto.
Qed.

(* ===================================================================== *)
(** * Word wrap: the words are kept, only the first line can be empty     *)
(* ===================================================================== *)

Lemma all_chars_app p a b :
  all_chars p (a ++ b) = all_chars p a && all_chars p b.
Proof. induction a as [|c a IH]; simpl; auto. now rewrite IH, andb_assoc. Qed.

(** What [str.split] returns are words. *)
Lemma split_go_words s :
  forall cur, all_chars not_space cur = true -> Forall is_word (split_go cur s).
Proof.
  induction s as [|c s IH]; intros cur Hcur; simpl.
  - destruct (truthy cur) eqn:E; constructor; [split; auto | constructor].
  - destruct (is_space c) eqn:Ec.
    + destruct (truthy cur) eqn:E; [constructor; [split; auto|]|]; now apply IH.
    + apply IH. rewrite all_chars_app, Hcur. simpl. unfold not_space.
      now rewrite Ec.
Qed.

Lemma split_words text : Forall is_word (split text).
Proof. now apply split_go_words. Qed.

Lemma split_go_word w :
  forall cur, all_chars not_space w = true ->
  split_go cur w = if truthy (cur ++ w) then [cur ++ w] else [].
Proof.
  induction w as [|c w IH]; intros cur Hw; simpl.
  - now rewrite append_empty_r.
  - simpl in Hw. apply andb_prop in Hw as [Hc Hw].
    unfold not_space in Hc. apply negb_true_iff in Hc. rewrite Hc.
    rewrite IH, append_assoc by assumption. reflexivity.
Qed.

Lemma split_word w : is_word w -> split w = [w].
Proof.
  intros [Hne Hw]. unfold split. rewrite split_go_word by assumption.
  simpl. now rewrite Hne.
Qed.

(** Splitting around a white character. *)
Lemma split_go_space s c t :
  is_space c = true ->
  forall cur,
  split_go cur (s ++ String c t) = (split_go cur s ++ split_go "" t)%list.
Proof.
  intros Hc. induction s as [|x s IH]; intros cur; simpl.
  - rewrite Hc. destruct (truthy cur); reflexivity.
  - destruct (is_space x); [destruct (truthy cur)|]; rewrite IH; reflexivity.
Qed.

Lemma word_no_lead w : is_word w -> no_lead_space w = true.
Proof.
  intros [Hne Hw]. destruct w as [|c w]; [discriminate|].
  simpl in Hw. apply andb_prop in Hw as [Hc _]. exact Hc.
Qed.

Lemma word_last w d :
  is_word w ->
  exists c, last_char w d = Some c /\ is_space c = false.
Proof.
  intros [Hne Hw]. revert d Hne Hw.
  induction w as [|x w IH]; intros d Hne Hw; [discriminate|].
  simpl in Hw. apply andb_prop in Hw as [Hx Hw].
  destruct w as [|y w].
  - exists x. split; [reflexivity|]. now apply negb_true_iff.
  - apply (IH (Some x)); auto.
Qed.

Lemma word_no_trail w : is_word w -> no_trail_space w = true.
Proof.
  intros Hw. destruct (word_last w None Hw) as (c & E & Hc).
  unfold no_trail_space. now rewrite E, Hc.
Qed.

Lemma test_line_clean cur word :
  truthy cur = true -> clean_line cur -> is_word word ->
  strip (cur ++ " " ++ word) = cur ++ " " ++ word
  /\ clean_line (cur ++ " " ++ word)
  /\ truthy (cur ++ " " ++ word) = true
  /\ split (cur ++ " " ++ word) = (split cur ++ [word])%list.
Proof.
  intros Hne [Hl Ht] Hw.
  assert (Hc : clean_line (cur ++ " " ++ word)).
  { split.
    - destruct cur; [discriminate | exact Hl].
    - unfold no_trail_space. rewrite last_char_app. simpl.
      destruct (word_last word (Some " "%char) Hw) as (c & E & Hc).
      now rewrite E, Hc. }
  repeat split; try apply Hc.
  - apply strip_fixed; apply Hc.
  - destruct cur; [discriminate | reflexivity].
  - pose proof (split_word word Hw) as Ew. unfold split in *.
    change (cur ++ " " ++ word) with (cur ++ String " " word).
    rewrite split_go_space by reflexivity. now rewrite Ew.
Qed.

Section WrapWords.
Context `{Pillow}.
Variable f : font.
Variable max_width : Z.

(** The loop keeps the words in order, keeps the current line clean and
    never leaves an empty line behind once a word has been read. *)
Lemma wrap_words_keeps words :
  forall lines current_line,
  Forall is_word words -> clean_line current_line ->
  let r := wrap_words f max_width words lines current_line in
  (flat_map split (fst r) ++ split (snd r)
   = flat_map split lines ++ split current_line ++ words)%list
  /\ clean_line (snd r)
  /\ (words <> [] -> truthy (snd r) = true)
  /\ (truthy current_line = true -> truthy (snd r) = true)
  /\ (truthy current_line = true -> Forall (fun l => truthy l = true) lines ->
      Forall (fun l => truthy l = true) (fst r))
  /\ (Forall (fun l => truthy l = true) (tl lines) ->
      (truthy current_line = false -> lines = []) ->
      Forall (fun l => truthy l = true) (tl (fst r))).
Proof.
  induction words as [|word words IH]; intros lines cur Hws Hc; cbn zeta.
  - simpl. rewrite app_nil_r. repeat split; auto; try apply Hc; congruence.
  - inversion Hws as [|? ? Hw Hrest]; subst.
    assert (Hwt : truthy word = true) by apply Hw.
    assert (Hwc : clean_line word)
      by (split; [now apply word_no_lead | now apply word_no_trail]).
    cbn [wrap_words].
    set (test_line := if truthy cur then strip (cur ++ " " ++ word) else word).
    assert (Ht : clean_line test_line /\ truthy test_line = true
                 /\ split test_line = (split cur ++ [word])%list).
    { unfold test_line. destruct (truthy cur) eqn:E.
      - destruct (test_line_clean cur word E Hc Hw) as (-> & H1 & H2 & H3). auto.
      - destruct cur; [|discriminate]. rewrite split_word by assumption. auto. }
    destruct Ht as (Htc & Htt & Hts).
    destruct (text_width f test_line <=? max_width).
    + destruct (IH lines test_line Hrest Htc) as (E & C & _ & T & F1 & F2).
      cbn zeta in *.
      refine (conj _ (conj C (conj _ (conj _ (conj _ _))))); auto.
      * rewrite E, Hts, <- !app_assoc. reflexivity.
      * intros Hl He. apply F2; auto. rewrite Htt. discriminate.
    + destruct (IH (lines ++ [cur])%list word Hrest Hwc) as (E & C & _ & T & F1 & F2).
      cbn zeta in *.
      refine (conj _ (conj C (conj _ (conj _ (conj _ _))))); auto.
      * rewrite E, flat_map_app. cbn [flat_map].
        rewrite (split_word word Hw), app_nil_r, <- !app_assoc. reflexivity.
      * intros Hcur Hl. apply F1; auto. apply Forall_app. split; auto.
      * intros Hl He. apply F2; [|rewrite Hwt; discriminate].
        destruct lines as [|l0 lines]; simpl; [constructor|].
        apply Forall_app. split; [exact Hl|].
        constructor; [|constructor].
        destruct (truthy cur) eqn:Ecur; auto.
        specialize (He eq_refl). discriminate.
Qed.

End WrapWords.

Lemma clean_empty : clean_line "".
Proof. split; reflexivity. Qed.

(** X4. Wrapping loses no word and keeps their order: the words of the
    lines, line after line, are the words of the text. *)
Theorem wrap_lines_keeps_words `{Pillow} (f : font) (max_width : Z)
    (text : string) :
  flat_map split (wrap_lines f max_width text) = split text.
Proof.
  unfold wrap_lines.
  destruct (wrap_words_keeps f max_width (split text) [] ""
              (split_words text) clean_empty) as (E & C & _).
  cbn zeta in E. simpl in E.
  destruct (wrap_words f max_width (split text) [] "") as [lines cur].
  simpl in *. destruct (truthy cur) eqn:Ec.
  - rewrite flat_map_app. simpl. now rewrite app_nil_r.
  - destruct cur; [|discriminate]. simpl in E. now rewrite app_nil_r in E.
Qed.

(** X5. Only the first line emitted can be empty, and it is empty only
    when the first word is wider than the budget: when the first word
    fits, every line is non-empty. *)
Theorem wrap_lines_nonempty `{Pillow} (f : font) (max_width : Z)
    (text : string) :
  Forall (fun l => l <> "") (tl (wrap_lines f max_width text))
  /\ (forall word rest, split text = word :: rest ->
        text_width f word <= max_width ->
        Forall (fun l => l <> "") (wrap_lines f max_width text)).
Proof.
  assert (Hconv : forall l, Forall (fun s => truthy s = true) l ->
                            Forall (fun s => s <> "") l).
  { intros l. apply Forall_impl. intros s. apply truthy_true. }
  split.
  - apply Hconv. unfold wrap_lines.
    destruct (wrap_words_keeps f max_width (split text) [] ""
                (split_words text) clean_empty) as (_ & _ & _ & _ & _ & F2).
    cbn zeta in F2. specialize (F2 (Forall_nil _) (fun _ => eq_refl)).
    destruct (wrap_words f max_width (split text) [] "") as [lines cur].
    simpl in *. destruct (truthy cur) eqn:Ec; auto.
    destruct lines as [|l0 lines]; simpl; [constructor|].
    apply Forall_app. split; auto.
  - intros word rest Hs Hfit. apply Hconv. unfold wrap_lines. rewrite Hs.
    pose proof (split_words text) as Hw. rewrite Hs in Hw.
    inversion Hw as [|? ? Hword Hrest]; subst.
    cbn [wrap_words truthy]. apply Z.leb_le in Hfit. rewrite Hfit.
    destruct (wrap_words_keeps f max_width rest [] word Hrest)
      as (_ & _ & _ & T & F1 & _).
    { split; [now apply word_no_lead | now apply word_no_trail]. }
    cbn zeta in *. specialize (T (proj1 Hword)).
    specialize (F1 (proj1 Hword) (Forall_nil _)).
    destruct (wrap_words f max_width rest [] word) as [lines cur].
    simpl in *. rewrite T. apply Forall_app. split; auto.
Qed.

(* ===================================================================== *)
(** * Text rendering: layout of the block, effect on the image object     *)
(* ===================================================================== *)

(** Python's [a // 2]. *)
Lemma half_floor a : 2 * (a / 2) <= a < 2 * (a / 2) + 2.
Proof.
  pose proof (Z.div_mod a 2 ltac:(lia)).
  pose proof (Z.mod_pos_bound a 2 ltac:(lia)). lia.
Qed.

Section LayoutFacts.
Context `{Pillow}.
Variable f : font.

Lemma draw_lines_positions text_color width lines :
  forall px y,
  draw_lines f px width y lines text_color
  = fold_left (draw_line f text_color) (line_positions f width y lines) px.
Proof.
  induction lines as [|line lines IH]; intros px y; simpl; auto.
Qed.

Lemma line_positions_lines width lines :
  forall y, map fst (line_positions f width y lines) = lines.
Proof. induction lines as [|l lines IH]; intros y; simpl; congruence. Qed.

Lemma line_positions_centred width lines :
  forall y,
  Forall (fun p => 2 * fst (snd p) <= width - text_width f (fst p)
                   < 2 * fst (snd p) + 2)
         (line_positions f width y lines).
Proof.
  induction lines as [|l lines IH]; intros y; simpl; constructor; auto.
  simpl. apply half_floor.
Qed.

Lemma line_positions_spacing width lines :
  forall y i p q,
  nth_error (line_positions f width y lines) i = Some p ->
  nth_error (line_positions f width y lines) (S i) = Some q ->
  snd (snd q) = snd (snd p) + text_height f (fst p) + 10.
Proof.
  induction lines as [|l lines IH]; intros y i p q Hp Hq; [destruct i; discriminate|].
  destruct i as [|i].
  - simpl in Hp. inversion Hp; subst p. simpl in Hq.
    destruct lines as [|l' lines]; [discriminate|].
    simpl in Hq. inversion Hq; subst q. simpl. lia.
  - simpl in Hp, Hq. eapply IH; eauto.
Qed.

Lemma line_positions_top width lines y :
  forall p, nth_error (line_positions f width y lines) 0 = Some p ->
            snd (snd p) = y.
Proof.
  destruct lines; simpl; intros p Hp; inversion Hp. reflexivity.
Qed.

Lemma line_positions_bottom width lines :
  forall y p,
  nth_error (line_positions f width y lines) (pred (List.length lines)) = Some p ->
  lines <> [] ->
  snd (snd p) + text_height f (fst p) = y + block_height f lines.
Proof.
  unfold block_height.
  induction lines as [|l lines IH]; intros y p Hp Hne; [congruence|].
  destruct lines as [|l' lines].
  - simpl in Hp. inversion Hp; subst p. simpl. lia.
  - change (pred (List.length (l :: l' :: lines))) with
      (S (pred (List.length (l' :: lines)))) in Hp.
    cbn [line_positions nth_error] in Hp. apply IH in Hp; [|discriminate].
    rewrite Hp. cbn [map sum_Z fold_right List.length].
    fold (sum_Z (map (text_height f) lines)). lia.
Qed.

End LayoutFacts.

(** X6. The caption is drawn as a block: the pixels of the rendered image
    are the lines of the wrapped text drawn one after the other at the
    positions of [text_block], the size of the image being unchanged;
    every line is centred horizontally on its own (its left is the floor
    of half the free width), each line starts its own height plus 10
    pixels below the start of the previous one, the first line starts at
    the floor of half the free height, and the last line, with its
    height, ends one block height below that start. *)
Theorem render_text_layout `{Pillow} (f : font) (image : Image) (text : string)
    (text_color : Color) :
  let lines := wrap_lines f (max_width_of (fst (size image))) text in
  let block := text_block f image text in
  let top := (snd (size image) - block_height f lines) / 2 in
  size (render_text f image text text_color) = size image
  /\ pixels (render_text f image text text_color)
     = fold_left (draw_line f text_color) block (pixels image)
  /\ map fst block = lines
  /\ Forall (fun p => 2 * fst (snd p) <= fst (size image) - text_width f (fst p)
                      < 2 * fst (snd p) + 2) block
  /\ (forall i p q, nth_error block i = Some p -> nth_error block (S i) = Some q ->
        snd (snd q) = snd (snd p) + text_height f (fst p) + 10)
  /\ 2 * top <= snd (size image) - block_height f lines < 2 * top + 2
  /\ (forall p, nth_error block 0 = Some p -> snd (snd p) = top)
  /\ (forall p, nth_error block (pred (List.length lines)) = Some p ->
        lines <> [] ->
        snd (snd p) + text_height f (fst p) = top + block_height f lines).
Proof.
  intros lines block top. unfold block, text_block. fold lines. fold top.
  split; [reflexivity|]. split.
  { unfold render_text. cbn [pixels]. rewrite draw_lines_positions.
    reflexivity. }
  split; [apply line_positions_lines|].
  split; [apply line_positions_centred|].
  split; [apply line_positions_spacing|].
  split.
  { unfold top. apply half_floor. }
  split; [apply line_positions_top | apply line_positions_bottom].
Qed.

(** X7. A caption without a word draws nothing: the image comes back as
    it was. *)
Theorem render_text_blank `{Pillow} (f : font) (image : Image) (text : string)
    (text_color : Color) :
  all_chars is_space text = true ->
  render_text f image text text_color = image.
Proof.
  intros Hb. assert (Hs : split text = []).
  { unfold split. induction text as [|c t IH]; simpl; auto.
    simpl in Hb. apply andb_prop in Hb as [Hc Hb]. rewrite Hc. auto. }
  unfold render_text, wrap_lines. rewrite Hs. simpl.
  destruct image; reflexivity.
Qed.

(** X8. [add_centered_text_with_outline] works in place: when the font
    loads, the object it was given holds the rendered frame afterwards,
    the reference returned is the one received, and no other object, nor
    the console, nor a file changes; when the font does not load, the
    exception of the loader escapes and nothing at all has changed. *)
Theorem add_centered_text_effect `{Pillow} `{!Media} (image : ref)
    (text font_path : string) (font_size : Z) (text_color : Color) (w : World) :
  let r := add_centered_text_with_outline image text font_path font_size
             text_color w in
  stdout (fst r) = stdout w /\ files (fst r) = files w
  /\ List.length (heap (fst r)) = List.length (heap w)
  /\ (forall i, i <> image -> nth_error (heap (fst r)) i = nth_error (heap w) i)
  /\ match truetype font_path font_size, nth_error (heap w) image with
     | Ok f, Some im =>
         snd r = Ok image
         /\ nth_error (heap (fst r)) image
            = Some (render_text f im text text_color)
     | Ok _, None => r = (w, Raise ReferenceError)
     | Raise e, _ => r = (w, Raise e)
     end.
Proof.
  unfold add_centered_text_with_outline, bind, lift, deref, store, ret.
  destruct (truetype font_path font_size) as [f|e]; cbn [fst snd heap stdout files].
  - destruct (nth_error (heap w) image) as [im|] eqn:E;
      cbn [fst snd heap stdout files].
    + repeat split; auto.
      * apply update_length.
      * intros i Hi. now apply nth_error_update_other.
      * apply nth_error_update_same. apply nth_error_Some. congruence.
    + repeat split; auto.
  - repeat split; auto.
Qed.

(* ===================================================================== *)
(** * Frame transformer: integer form, geometry, errors                   *)
(* ===================================================================== *)

Lemma py_int_scale_mul n a b :
  0 <= n ->
  py_int (inject_Z n * (inject_Z (Z.pos a) / inject_Z (Z.pos b)))
  = (n * Z.pos a) / Z.pos b.
Proof.
  intros Hn.
  assert (Hq : (inject_Z n * (inject_Z (Z.pos a) / inject_Z (Z.pos b))
                == (n * Z.pos a) # b)%Q).
  { rewrite aspect_ratio_fraction. unfold Qeq, Qmult, inject_Z.
    cbn [Qnum Qden]. lia. }
  rewrite py_int_nonneg.
  - rewrite Hq. reflexivity.
  - rewrite Hq. unfold Qle. cbn [Qnum Qden]. lia.
Qed.

Lemma py_int_scale_div n a b :
  0 <= n ->
  py_int (inject_Z n / (inject_Z (Z.pos a) / inject_Z (Z.pos b)))
  = (n * Z.pos b) / Z.pos a.
Proof.
  intros Hn.
  assert (Hq : (inject_Z n / (inject_Z (Z.pos a) / inject_Z (Z.pos b))
                == (n * Z.pos b) # a)%Q).
  { rewrite aspect_ratio_fraction. unfold Qeq, Qdiv, Qmult, Qinv, inject_Z.
    cbn [Qnum Qden]. lia. }
  rewrite py_int_nonneg.
  - rewrite Hq. reflexivity.
  - rewrite Hq. unfold Qle. cbn [Qnum Qden]. lia.
Qed.

Lemma narrower_test a b :
  Qlt_bool (inject_Z (Z.pos a) / inject_Z (Z.pos b)) default_aspect_ratio
  = (16 * Z.pos a <? 9 * Z.pos b).
Proof.
  unfold Qlt_bool.
  destruct (Qle_bool _ _) eqn:E1; destruct (_ <? _) eqn:E2; try reflexivity;
    exfalso.
  - apply Qle_bool_iff in E1. rewrite aspect_ratio_fraction in E1.
    unfold Qle, default_aspect_ratio in E1. cbn [Qnum Qden] in E1.
    apply Z.ltb_lt in E2. lia.
  - apply Z.ltb_ge in E2.
    assert (Hle : (default_aspect_ratio
                   <= inject_Z (Z.pos a) / inject_Z (Z.pos b))%Q).
    { rewrite aspect_ratio_fraction. unfold Qle, default_aspect_ratio.
      cbn [Qnum Qden]. lia. }
    apply Qle_bool_iff in Hle. congruence.
Qed.

(** Letterbox-fit on a source of positive size, the rational
    computations being replaced by integer divisions. *)
Lemma letterbox_integer_form `{Pillow} (im : Image) :
  0 < fst (size im) -> 0 < snd (size im) ->
  resize_to_aspect_ratio_with_zoom im default_aspect_ratio default_resolution
  = (resized <--
       image_resize im (letterbox_size (fst (size im)) (snd (size im))) ;;
     Ok (image_paste
           {| size := (1080, 1920); pixels := solid (1080, 1920) (0, 0, 0) |}
           resized
           ((1080 - fst (letterbox_size (fst (size im)) (snd (size im)))) / 2,
            (1920 - snd (letterbox_size (fst (size im)) (snd (size im)))) / 2))).
Proof.
  intros Hw Hh. unfold resize_to_aspect_ratio_with_zoom, letterbox_size.
  destruct (size im) as [w h]. cbn [fst snd] in *.
  destruct w as [|a|a]; try lia. destruct h as [|b|b]; try lia.
  unfold py_truediv at 1. rewrite Qeq_bool_inject_Z_pos. cbn [rbind].
  rewrite narrower_test. unfold default_resolution. cbn [fst snd].
  destruct (16 * Z.pos a <? 9 * Z.pos b); cbn [rbind fst snd].
  - rewrite py_int_scale_mul by lia. reflexivity.
  - unfold py_truediv. rewrite same_ratio_nonzero. cbn [rbind].
    rewrite py_int_scale_div by lia. reflexivity.
Qed.

Lemma letterbox_size_bounds w h :
  0 < w -> 0 < h ->
  0 <= fst (letterbox_size w h) <= 1080
  /\ 0 <= snd (letterbox_size w h) <= 1920
  /\ (fst (letterbox_size w h) = 1080 \/ snd (letterbox_size w h) = 1920)
  /\ (1 <= fst (letterbox_size w h) <-> h <= 1920 * w)
  /\ (1 <= snd (letterbox_size w h) <-> w <= 1080 * h).
Proof.
  intros Hw Hh. unfold letterbox_size.
  destruct (16 * w <? 9 * h) eqn:E; cbn [fst snd].
  - apply Z.ltb_lt in E.
    assert (0 <= 1920 * w / h) by (apply Z.div_pos; lia).
    assert (1920 * w / h <= 1080)
      by (apply Z.lt_le_incl, Z.div_lt_upper_bound; lia).
    assert (1 <= 1920 * w / h <-> h <= 1920 * w).
    { split; intros Hx.
      - destruct (Z.le_gt_cases h (1920 * w)) as [|Hgt]; auto.
        rewrite Z.div_small in Hx by lia. lia.
      - apply Z.div_le_lower_bound; lia. }
    repeat split; try lia; tauto.
  - apply Z.ltb_ge in E.
    assert (0 <= 1080 * h / w) by (apply Z.div_pos; lia).
    assert (1080 * h / w <= 1920).
    { apply Z.lt_succ_r, Z.div_lt_upper_bound; lia. }
    assert (1 <= 1080 * h / w <-> w <= 1080 * h).
    { split; intros Hx.
      - destruct (Z.le_gt_cases w (1080 * h)) as [|Hgt]; auto.
        rewrite Z.div_small in Hx by lia. lia.
      - apply Z.div_le_lower_bound; lia. }
    repeat split; try lia; tauto.
Qed.

(** X10. For a source of positive size letterbox-fit returns a frame,
    of the default resolution, exactly when the source is at most 1080
    times wider than high and at most 1920 times higher than wide;
    otherwise the scaled size has a zero and [resize] raises. *)
Theorem letterbox_returns_iff `{Pillow} (im : Image) :
  0 < fst (size im) -> 0 < snd (size im) ->
  ((snd (size im) <= 1920 * fst (size im)
    /\ fst (size im) <= 1080 * snd (size im))
   /\ exists im',
        resize_to_aspect_ratio_with_zoom im default_aspect_ratio
          default_resolution = Ok im'
        /\ size im' = default_resolution)
  \/ ((1920 * fst (size im) < snd (size im)
       \/ 1080 * snd (size im) < fst (size im))
      /\ resize_to_aspect_ratio_with_zoom im default_aspect_ratio
           default_resolution
         = Raise (ValueError "height and width must be > 0")).
Proof.
  intros Hw Hh.
  destruct (Z.le_gt_cases (snd (size im)) (1920 * fst (size im))) as [H1|H1];
  [destruct (Z.le_gt_cases (fst (size im)) (1080 * snd (size im))) as [H2|H2]|].
  - left. split; [split; assumption|]. now apply letterbox_returns.
  - right. split; [right; lia|].
    rewrite letterbox_integer_form by assumption.
    destruct (letterbox_size_bounds _ _ Hw Hh) as (Bw & Bh & _ & _ & Hh1).
    unfold image_resize.
    destruct (size_eqb _ _) eqn:Eq.
    { apply size_eqb_eq in Eq. rewrite <- Eq in Hh1. cbn [snd] in Hh1. lia. }
    destruct (snd (letterbox_size _ _) <? 1) eqn:E2.
    + rewrite orb_true_r. reflexivity.
    + apply Z.ltb_ge in E2. lia.
  - right. split; [left; lia|].
    rewrite letterbox_integer_form by assumption.
    destruct (letterbox_size_bounds _ _ Hw Hh) as (Bw & Bh & _ & Hw1 & _).
    unfold image_resize.
    destruct (size_eqb _ _) eqn:Eq.
    { apply size_eqb_eq in Eq. rewrite <- Eq in Hw1. cbn [fst] in Hw1. lia. }
    destruct (fst (letterbox_size _ _) <? 1) eqn:E1.
    + reflexivity.
    + apply Z.ltb_ge in E1. lia.
Qed.

(** X11. A source of height 0 makes letterbox-fit raise
    [ZeroDivisionError], whatever its width, the ratio and the target. *)
Theorem letterbox_zero_height `{Pillow} (im : Image) (ratio : Q) (target : Size) :
  snd (size im) = 0 ->
  resize_to_aspect_ratio_with_zoom im ratio target = Raise ZeroDivisionError.
Proof.
  intros Hh. unfold resize_to_aspect_ratio_with_zoom.
  destruct (size im) as [w h]. cbn [snd] in Hh. subst h. reflexivity.
Qed.

(** X12. Stretch-to-fill never raises: for every source, of any size,
    it returns a frame of the default resolution, the source itself when
    it has that size already; and [transform] stretches for every method
    other than ['zoom']. *)
Theorem stretch_total `{Pillow} (im : Image) :
  (exists im',
     stretch_vertically_to_resolution im default_resolution = Ok im'
     /\ size im' = default_resolution
     /\ (size im = default_resolution -> im' = im)
     /\ (size im <> default_resolution ->
         pixels im' = lanczos (pixels im) (size im) default_resolution))
  /\ (forall method, String.eqb method "zoom" = false ->
        transform method im
        = stretch_vertically_to_resolution im default_resolution).
Proof.
  split.
  - unfold stretch_vertically_to_resolution, image_resize.
    destruct (size_eqb (size im) default_resolution) eqn:E.
    + apply size_eqb_eq in E. exists im. repeat split; auto. congruence.
    + exists {| size := default_resolution;
                pixels := lanczos (pixels im) (size im) default_resolution |}.
      repeat split; auto. intros Hs. apply size_eqb_eq in Hs. congruence.
  - intros method Hm. unfold transform. now rewrite Hm.
Qed.

(* ===================================================================== *)
(** * Pipelines: time slices, clips, what is written                      *)
(* ===================================================================== *)

Create HintDb io.

Section PipelineEffects.
Context `{Pillow} `{!Media}.

Lemma bind_ok {A B} (c : M A) (k : A -> M B) w w' b :
  bind c k w = (w', Ok b) ->
  exists w1 a, c w = (w1, Ok a) /\ k a w1 = (w', Ok b).
Proof.
  unfold bind. destruct (c w) as [w1 [a|e]]; [eauto | discriminate].
Qed.

Lemma preserves_io_bind {A B} (c : M A) (k : A -> M B) :
  preserves_io c -> (forall a, preserves_io (k a)) -> preserves_io (bind c k).
Proof.
  intros Hc Hk w. unfold bind. destruct (Hc w) as [H1 H2].
  destruct (c w) as [w1 [a|e]]; cbn [fst] in *; [|auto].
  destruct (Hk a w1) as [H3 H4]. split; congruence.
Qed.

Lemma preserves_io_lift {A} (r : result A) : preserves_io (lift r).
Proof. intros w. auto. Qed.

Lemma preserves_io_ret {A} (a : A) : preserves_io (ret a).
Proof. intros w. auto. Qed.

Lemma preserves_io_alloc im : preserves_io (alloc im).
Proof. intros w. auto. Qed.

Lemma preserves_io_deref r : preserves_io (deref r).
Proof. intros w. unfold deref. destruct (nth_error _ _); auto. Qed.

Lemma preserves_io_store r im : preserves_io (store r im).
Proof. intros w. auto. Qed.

#[local] Hint Resolve preserves_io_lift preserves_io_ret preserves_io_alloc
  preserves_io_deref preserves_io_store : io.

Lemma preserves_io_copy r : preserves_io (image_copy r).
Proof.
  apply preserves_io_bind; [apply preserves_io_deref|].
  intros a. apply preserves_io_alloc.
Qed.

Lemma preserves_io_text image text font_path font_size text_color :
  preserves_io
    (add_centered_text_with_outline image text font_path font_size text_color).
Proof.
  unfold add_centered_text_with_outline.
  repeat (cbn zeta; apply preserves_io_bind; [|intros ?]);
      auto with io.
Qed.

#[local] Hint Resolve preserves_io_copy preserves_io_text : io.

Lemma preserves_io_image_clips image sentences font_path font_size text_color d :
  preserves_io (image_clips image sentences font_path font_size text_color d).
Proof.
  induction sentences as [|s rest IH]; cbn [image_clips].
  - apply preserves_io_ret.
  - repeat (cbn zeta; apply preserves_io_bind; [|intros ?]);
      auto with io.
Qed.

Lemma preserves_io_frame_loop source_frames sentence method font_path font_size
    text_color :
  preserves_io
    (frame_loop source_frames sentence method font_path font_size text_color).
Proof.
  induction source_frames as [|fr rest IH]; cbn [frame_loop].
  - apply preserves_io_ret.
  - repeat (cbn zeta; apply preserves_io_bind; [|intros ?]);
      auto with io.
Qed.

#[local] Hint Resolve preserves_io_frame_loop : io.

Lemma preserves_io_video_clips v sentences method font_path font_size
    text_color d :
  forall i,
  preserves_io
    (video_clips v i sentences method font_path font_size text_color d).
Proof.
  induction sentences as [|s rest IH]; intros i; cbn [video_clips].
  - apply preserves_io_ret.
  - destruct (time_slice i d) as [start_time end_time].
    repeat (cbn zeta; apply preserves_io_bind; [|intros ?]);
      auto with io.
Qed.

(** Every clip of the video path has at least one frame, at 24 frames a
    second, and there is at most one clip for a unit. *)
Lemma video_clips_shape v sentences method font_path font_size text_color d :
  forall i w w' clips,
  video_clips v i sentences method font_path font_size text_color d w
  = (w', Ok clips) ->
  (List.length clips <= List.length sentences)%nat
  /\ Forall (fun c => frames c <> [] /\ fps c = 24) clips.
Proof.
  induction sentences as [|s rest IH]; intros i w w' clips; cbn [video_clips].
  - intros E. inversion E; subst. split; [simpl; lia | constructor].
  - destruct (time_slice i d) as [start_time end_time]. intros E.
    apply bind_ok in E as (w1 & source_frames & _ & E).
    apply bind_ok in E as (w2 & frame_clips & _ & E).
    apply bind_ok in E as (w3 & clips' & Ec & E).
    apply IH in Ec as [Hlen Hall].
    unfold ret in E. inversion E; subst. clear E.
    destruct frame_clips as [|fr frs]; cbn [List.length].
    + split; [lia | exact Hall].
    + split; [lia|]. constructor; [|exact Hall].
      cbn [frames fps clip_duration ImageSequenceClip].
      repeat split; congruence.
Qed.

End PipelineEffects.

(** X14. The image path touches the console and the files only through
    its one call of [write_videofile], made last: either the run raises
    before that call, and the console and the files are as they were, or
    the run ends with that call, made on the composition of one clip per
    caption unit (at least one) at the output path in a world whose
    console and files are as they were; what is printed, whether a file
    is left and whether the run returns are then those of that call. *)
Theorem image_path_output `{Pillow} `{!Media}
    (image_path out text font_path : string) (font_size : Z)
    (text_color : Color) (total_duration : float) (method : string) (w : World) :
  let r := create_video_from_image_with_text image_path out text font_path
             font_size text_color total_duration method w in
  (stdout (fst r) = stdout w /\ files (fst r) = files w
   /\ exists e, snd r = Raise e)
  \/ (exists clips w',
        clips <> []
        /\ List.length clips = List.length (split_sentences text)
        /\ stdout w' = stdout w /\ files w' = files w
        /\ r = write_videofile (Composite clips) out w').
Proof.
  unfold create_video_from_image_with_text, bind, lift.
  destruct (image_open image_path) as [opened|e]; cbn [fst snd]; eauto.
  destruct (transform method opened) as [t|e]; cbn [fst snd]; eauto.
  unfold alloc.
  set (w1 := {| heap := (heap w ++ [t])%list; stdout := stdout w;
                files := files w |}).
  pose proof (preserves_io_image_clips (List.length (heap w))
                (split_sentences text) font_path font_size text_color
                (sentence_duration total_duration (split_sentences text)) w1)
    as [Ho Hf].
  pose proof (image_clips_spec (List.length (heap w)) t font_path font_size
                text_color
                (sentence_duration total_duration (split_sentences text))
                (split_sentences text) w1 (nth_error_snoc_new _ _))
    as (_ & _ & _ & Hr).
  cbn zeta in Hr.
  destruct (image_clips _ _ _ _ _ _ w1) as [w2 [clips|e]]; cbn [fst snd] in *;
    [|left; eauto].
  assert (Hlen : List.length clips = List.length (split_sentences text)).
  { destruct (truetype font_path font_size).
    - inversion Hr. now rewrite length_map.
    - destruct (split_sentences text); inversion Hr. reflexivity. }
  destruct clips as [|c clips]; cbn [concatenate_videoclips fst snd].
  - left. eauto.
  - right. exists (c :: clips), w2.
    repeat split; [discriminate | exact Hlen | exact Ho | exact Hf].
Qed.

(** X15. The video path has three ways to end.  It raises before any
    clip is composed, the console and the files being as they were; or
    no clip was made, and it prints the one-line report, writes no file
    and returns; or it ends with its one call of [write_videofile], made
    on the composition of the clips (at least one, at most one per unit,
    each with at least one frame) at the output path in a world whose
    console and files are as they were. *)
Theorem video_path_output `{Pillow} `{!Media}
    (video_path out text font_path : string) (font_size : Z)
    (text_color : Color) (total_duration : float) (method : string) (w : World) :
  let r := create_video_from_video_with_text video_path out text font_path
             font_size text_color total_duration method w in
  (stdout (fst r) = stdout w /\ files (fst r) = files w
   /\ exists e, snd r = Raise e)
  \/ (stdout (fst r) = (stdout w ++ ["No clips were created."])%list
      /\ files (fst r) = files w /\ snd r = Ok tt)
  \/ (exists clips w',
        clips <> []
        /\ (List.length clips <= List.length (split_sentences text))%nat
        /\ Forall (fun c => frames c <> []) clips
        /\ stdout w' = stdout w /\ files w' = files w
        /\ r = write_videofile (Composite clips) out w').
Proof.
  unfold create_video_from_video_with_text, bind, lift.
  destruct (VideoFileClip video_path) as [v|e]; cbn [fst snd]; eauto.
  set (d := sentence_duration (trimmed_clip_duration total_duration v)
              (split_sentences text)).
  pose proof (preserves_io_video_clips v (split_sentences text) method
                font_path font_size text_color d 0%nat w) as [Ho Hf].
  pose proof (video_clips_shape v (split_sentences text) method font_path
                font_size text_color d 0%nat w) as Hshape.
  destruct (video_clips v 0 (split_sentences text) method font_path font_size
              text_color d w) as [w1 [clips|e]]; cbn [fst snd] in *;
    [|left; eauto].
  destruct (Hshape w1 clips eq_refl) as [Hlen Hall].
  destruct clips as [|c clips].
  - right. left. cbn [print fst snd stdout files].
    repeat split; congruence.
  - right. right. cbn [concatenate_videoclips fst snd].
    exists (c :: clips), w1.
    repeat split; [discriminate | exact Hlen | | exact Ho | exact Hf].
    eapply Forall_impl; [|exact Hall]. intros x Hx. apply Hx.
Qed.

(* ===================================================================== *)
(** * Pipelines: frames of the video path, objects, a whole run           *)
(* ===================================================================== *)

Section LoopFacts.
Context `{Pillow} `{!Media}.

Lemma update_snoc {A} (l : list A) (x y : A) :
  update (l ++ [x]) (List.length l) y = (l ++ [y])%list.
Proof. induction l as [|a l IH]; simpl; congruence. Qed.

(** The three steps that both loops share: copy the frame, draw the
    caption on the copy, read the pixels of the copy. *)
Lemma copy_draw_read {B} (r : ref) sentence font_path font_size text_color
    (k : Image -> M B) (w : World) :
  bind (image_copy r)
    (fun c =>
       bind (add_centered_text_with_outline c sentence font_path font_size
               text_color)
         (fun frame_image => bind (np_array frame_image) k)) w
  = match nth_error (heap w) r with
    | None => (w, Raise ReferenceError)
    | Some t =>
        match truetype font_path font_size with
        | Raise e =>
            ({| heap := (heap w ++ [t])%list; stdout := stdout w;
                files := files w |}, Raise e)
        | Ok f =>
            k (render_text f t sentence text_color)
              {| heap := (heap w ++ [render_text f t sentence text_color])%list;
                 stdout := stdout w; files := files w |}
        end
    end.
Proof.
  unfold image_copy, add_centered_text_with_outline, np_array, bind, lift,
    deref, alloc, store, ret.
  destruct (nth_error (heap w) r) as [t|]; [|reflexivity].
  cbn [heap stdout files].
  destruct (truetype font_path font_size) as [f|e]; [|reflexivity].
  cbn [heap stdout files]. rewrite nth_error_snoc_new.
  cbn [heap stdout files]. rewrite update_snoc, nth_error_snoc_new.
  reflexivity.
Qed.

Lemma preserves_objects_grow {A} (c : M A) (w : World) (x : Image) :
  preserves_objects c ->
  let w1 := {| heap := (heap w ++ [x])%list; stdout := stdout w;
               files := files w |} in
  (List.length (heap w) <= List.length (heap (fst (c w1))))%nat
  /\ forall i, (i < List.length (heap w))%nat ->
               nth_error (heap (fst (c w1))) i = nth_error (heap w) i.
Proof.
  intros Hc w1. destruct (Hc w1) as [Hl Hi]. unfold w1 in *. cbn [heap] in *.
  rewrite length_app in *. cbn [List.length] in *. split; [lia|].
  intros i Hlt. rewrite Hi by lia. now apply nth_error_snoc_old.
Qed.

Lemma preserves_objects_ret_after {A B} (c : M A) (g : A -> B) :
  preserves_objects c -> preserves_objects (bind c (fun a => ret (g a))).
Proof.
  intros Hc w. unfold bind, ret. destruct (Hc w) as [Hl Hi].
  destruct (c w) as [w1 [a|e]]; cbn [fst] in *; auto.
Qed.

Lemma preserves_objects_image_clips image sentences font_path font_size
    text_color d :
  preserves_objects
    (image_clips image sentences font_path font_size text_color d).
Proof.
  induction sentences as [|s rest IH]; cbn [image_clips].
  - intros w. cbn [ret fst]. auto.
  - intros w. cbn zeta. rewrite copy_draw_read.
    destruct (nth_error (heap w) image) as [t|]; cbn [fst]; [|auto].
    destruct (truetype font_path font_size) as [f|e]; cbn [fst heap].
    + apply (preserves_objects_grow
               (bind (image_clips image rest font_path font_size text_color d)
                     (fun clips => ret (_ :: clips)))).
      now apply preserves_objects_ret_after.
    + rewrite length_app. cbn [List.length]. split; [lia|].
      intros i Hi. now apply nth_error_snoc_old.
Qed.

(** One round of the inner loop of the video path. *)
Lemma frame_loop_step fr rest sentence method font_path font_size text_color
    (w : World) :
  frame_loop (fr :: rest) sentence method font_path font_size text_color w
  = match transform method fr with
    | Raise e => (w, Raise e)
    | Ok t =>
        let w1 := {| heap := (heap w ++ [t])%list; stdout := stdout w;
                     files := files w |} in
        match truetype font_path font_size with
        | Raise e =>
            ({| heap := (heap w1 ++ [t])%list; stdout := stdout w;
                files := files w |}, Raise e)
        | Ok f =>
            bind (frame_loop rest sentence method font_path font_size text_color)
                 (fun arrs => ret (render_text f t sentence text_color :: arrs))
                 {| heap := (heap w1 ++ [render_text f t sentence text_color])%list;
                    stdout := stdout w; files := files w |}
        end
    end.
Proof.
  cbn [frame_loop]. unfold bind at 1. unfold lift.
  destruct (transform method fr) as [t|e]; [|reflexivity].
  unfold bind at 1. unfold alloc. rewrite copy_draw_read.
  cbn [heap stdout files]. rewrite nth_error_snoc_new. reflexivity.
Qed.

Lemma preserves_objects_frame_loop source_frames sentence method font_path
    font_size text_color :
  preserves_objects
    (frame_loop source_frames sentence method font_path font_size text_color).
Proof.
  induction source_frames as [|fr rest IH].
  - intros w. cbn [frame_loop ret fst]. auto.
  - intros w. rewrite frame_loop_step.
    destruct (transform method fr) as [t|e]; cbn [fst]; [|auto].
    cbn zeta.
    set (w1 := {| heap := (heap w ++ [t])%list; stdout := stdout w;
                  files := files w |}).
    assert (Hw1 : (List.length (heap w) <= List.length (heap w1))%nat
                  /\ forall i, (i < List.length (heap w))%nat ->
                               nth_error (heap w1) i = nth_error (heap w) i).
    { unfold w1. cbn [heap]. rewrite length_app. cbn [List.length].
      split; [lia|]. intros i Hi. now apply nth_error_snoc_old. }
    destruct Hw1 as [Hl1 Hi1].
    destruct (truetype font_path font_size) as [f|e]; cbn [fst heap].
    + destruct (preserves_objects_grow
                  (bind (frame_loop rest sentence method font_path font_size
                           text_color)
                        (fun arrs => ret (render_text f t sentence text_color
                                          :: arrs)))
                  w1 (render_text f t sentence text_color)) as [Hl2 Hi2].
      { now apply preserves_objects_ret_after. }
      cbn zeta in Hl2, Hi2.
      change (stdout w1) with (stdout w) in Hl2, Hi2.
      change (files w1) with (files w) in Hl2, Hi2.
      split; [lia|].
      intros i Hi. rewrite Hi2 by lia. now apply Hi1.
    + rewrite length_app. cbn [List.length]. split; [lia|].
      intros i Hi. rewrite nth_error_snoc_old by lia. now apply Hi1.
Qed.

Lemma preserves_objects_bind {A B} (c : M A) (k : A -> M B) :
  preserves_objects c -> (forall a, preserves_objects (k a)) ->
  preserves_objects (bind c k).
Proof.
  intros Hc Hk w. unfold bind. destruct (Hc w) as [Hl Hi].
  destruct (c w) as [w1 [a|e]]; cbn [fst] in *; auto.
  destruct (Hk a w1) as [Hl2 Hi2]. split; [lia|].
  intros i Hlt. rewrite Hi2 by lia. now apply Hi.
Qed.

Lemma preserves_objects_pure {A} (c : M A) :
  (forall w, heap (fst (c w)) = heap w) -> preserves_objects c.
Proof. intros Hc w. rewrite Hc. auto. Qed.

Lemma preserves_objects_alloc im : preserves_objects (alloc im).
Proof.
  intros w. cbn [alloc fst heap]. rewrite length_app. cbn [List.length].
  split; [lia|]. intros i Hi. now apply nth_error_snoc_old.
Qed.

Lemma preserves_objects_video_clips v sentences method font_path font_size
    text_color d :
  forall i,
  preserves_objects
    (video_clips v i sentences method font_path font_size text_color d).
Proof.
  induction sentences as [|s rest IH]; intros i; cbn [video_clips].
  - now apply preserves_objects_pure.
  - destruct (time_slice i d) as [start_time end_time].
    apply preserves_objects_bind; [now apply preserves_objects_pure|].
    intros source_frames.
    apply preserves_objects_bind; [apply preserves_objects_frame_loop|].
    intros frame_clips. now apply preserves_objects_ret_after.
Qed.

(** What the inner loop of the video path returns: one frame for each
    source frame, in order, each the caption drawn on its own source
    frame after the transformation. *)
Lemma frame_loop_frames f source_frames sentence method font_path font_size
    text_color :
  truetype font_path font_size = Ok f ->
  forall w w' arrs,
  frame_loop source_frames sentence method font_path font_size text_color w
  = (w', Ok arrs) ->
  Forall2 (fun frame arr =>
             exists t, transform method frame = Ok t
                       /\ arr = render_text f t sentence text_color)
          source_frames arrs.
Proof.
  intros Hf. induction source_frames as [|fr rest IH]; intros w w' arrs.
  - cbn [frame_loop]. intros E. inversion E. constructor.
  - rewrite frame_loop_step.
    destruct (transform method fr) as [t|e] eqn:Et; [|discriminate].
    cbn zeta. rewrite Hf.
    intros E. apply bind_ok in E as (w1 & arrs' & Er & E).
    unfold ret in E. inversion E; subst. constructor; eauto.
Qed.

End LoopFacts.

(** X16. No run changes an image object that existed before it: through
    the dispatcher, whatever the path, the text and the collaborators,
    and whether the run returns or raises, every object of the heap holds
    afterwards the value it held before. *)
Theorem run_preserves_objects `{Pillow} `{!Media} (os : OsPath.platform)
    (input_path out text font_path : string) (font_size : Z)
    (text_color : Color) (total_duration : float) (method : string) (w : World) :
  let r := create_video_from_media_with_text os input_path out text font_path
             font_size text_color total_duration method w in
  (List.length (heap w) <= List.length (heap (fst r)))%nat
  /\ forall i, (i < List.length (heap w))%nat ->
               nth_error (heap (fst r)) i = nth_error (heap w) i.
Proof.
  cbn zeta. revert w.
  change (preserves_objects
            (create_video_from_media_with_text os input_path out text
               font_path font_size text_color total_duration method)).
  unfold create_video_from_media_with_text.
  destruct (mem _ image_extensions); [|destruct (mem _ video_extensions)].
  - unfold create_video_from_image_with_text.
    apply preserves_objects_bind; [now apply preserves_objects_pure|].
    intros opened.
    apply preserves_objects_bind; [now apply preserves_objects_pure|].
    intros t.
    apply preserves_objects_bind; [apply preserves_objects_alloc|].
    intros image. cbn zeta.
    apply preserves_objects_bind; [apply preserves_objects_image_clips|].
    intros clips.
    apply preserves_objects_bind; [|intros ?]; now apply preserves_objects_pure.
  - unfold create_video_from_video_with_text.
    apply preserves_objects_bind; [now apply preserves_objects_pure|].
    intros v. cbn zeta.
    apply preserves_objects_bind; [apply preserves_objects_video_clips|].
    intros [|c clips]; [now apply preserves_objects_pure|].
    apply preserves_objects_bind; [|intros ?]; now apply preserves_objects_pure.
  - now apply preserves_objects_pure.
Qed.

(** X17. In the video path every frame is captioned on its own: when
    the inner loop returns, it returns one frame for each source frame,
    in order, and each is the caption of the unit drawn on that source
    frame transformed, whatever the other frames are. *)
Theorem frame_loop_independent `{Pillow} `{!Media} (f : font)
    (source_frames : list Image) (sentence method font_path : string)
    (font_size : Z) (text_color : Color) (w w' : World) (arrs : list Image) :
  truetype font_path font_size = Ok f ->
  frame_loop source_frames sentence method font_path font_size text_color w
  = (w', Ok arrs) ->
  List.length arrs = List.length source_frames
  /\ Forall2 (fun frame arr =>
                exists t, transform method frame = Ok t
                          /\ arr = render_text f t sentence text_color
                          /\ size arr = default_resolution)
             source_frames arrs.
Proof.
  intros Hf E. pose proof (frame_loop_frames f _ _ _ _ _ _ Hf _ _ _ E) as HF.
  split; [symmetry; eapply Forall2_length; eauto|].
  eapply Forall2_impl; [|exact HF].
  intros fr arr (t & Ht & ->). exists t. repeat split; auto.
  cbn [render_text size]. unfold transform in Ht.
  destruct (String.eqb method "zoom").
  - eapply letterbox_dimensions; eauto.
  - eapply image_resize_size; eauto.
Qed.

(** X18. A whole run of the image path that meets no failure before the
    encoding: when the image opens, the transformation returns, the font
    loads and the text has at least one unit, the run ends with the call
    of [write_videofile] at the output path, in a world whose console and
    files are as they were, on one clip for each unit in order; each
    clip is one frame of 1080 by 1920 pixels, the caption of its unit
    drawn on the transformed image, at 24 frames a second, shown for the
    double [total_duration / N], [N] being the number of units.  What
    is printed and whether the run returns are those of that call. *)
Theorem image_path_run `{Pillow} `{!Media}
    (image_path out text font_path : string) (font_size : Z)
    (text_color : Color) (total_duration : float) (method : string) (w : World)
    (opened t : Image) (f : font) :
  image_open image_path = Ok opened ->
  transform method opened = Ok t ->
  truetype font_path font_size = Ok f ->
  split_sentences text <> [] ->
  let r := create_video_from_image_with_text image_path out text font_path
             font_size text_color total_duration method w in
  let d := PrimFloat.div total_duration
             (Z_to_float (Z.of_nat (List.length (split_sentences text)))) in
  let clips :=
    map (fun s => {| frames := [render_text f t s text_color]; fps := 24;
                     clip_duration := d |}) (split_sentences text) in
  (exists w', stdout w' = stdout w /\ files w' = files w
              /\ r = write_videofile (Composite clips) out w')
  /\ stdout (fst r) = (stdout w ++ console (encode_videofile (Composite clips) out))%list
  /\ snd r = returned (encode_videofile (Composite clips) out)
  /\ size t = default_resolution
  /\ Forall (fun c => Forall (fun fr => size fr = default_resolution) (frames c))
            clips.
Proof.
  intros Ho Ht Hf Hne r d clips.
  assert (Hsz : size t = default_resolution).
  { unfold transform in Ht. destruct (String.eqb method "zoom").
    - eapply letterbox_dimensions; eauto.
    - eapply image_resize_size; eauto. }
  assert (Hd : sentence_duration total_duration (split_sentences text) = d).
  { unfold sentence_duration, d. destruct (split_sentences text); congruence. }
  assert (Hrun : exists w', stdout w' = stdout w /\ files w' = files w
                            /\ r = write_videofile (Composite clips) out w').
  { subst r. unfold create_video_from_image_with_text, bind, lift.
    rewrite Ho, Ht. unfold alloc.
    set (w1 := {| heap := (heap w ++ [t])%list; stdout := stdout w;
                  files := files w |}).
    pose proof (image_clips_spec (List.length (heap w)) t font_path font_size
                  text_color
                  (sentence_duration total_duration (split_sentences text))
                  (split_sentences text) w1 (nth_error_snoc_new _ _))
      as (_ & Hout & Hfiles & Hr).
    cbn zeta in Hout, Hfiles, Hr. rewrite Hf in Hr.
    rewrite Hd in Hout, Hfiles, Hr. rewrite Hd.
    destruct (image_clips _ _ _ _ _ d w1) as [w2 [cl|e]]; cbn [fst snd] in *;
      [|discriminate].
    inversion Hr; subst cl. clear Hr.
    change (map (unit_clip f t text_color d) (split_sentences text)) with clips.
    assert (Hc : clips <> []).
    { unfold clips. destruct (split_sentences text); [congruence | discriminate]. }
    destruct clips as [|c cs] eqn:Ec; [congruence|].
    cbn [concatenate_videoclips fst snd].
    exists w2. repeat split; auto. }
  split; [exact Hrun|].
  destruct Hrun as (w' & Hso & Hfi & ->).
  cbn [write_videofile fst snd stdout]. rewrite Hso.
  repeat split; auto.
  unfold clips. apply Forall_map, Forall_forall.
  intros s _. cbn [frames]. constructor; [|constructor]. exact Hsz.
Qed.

(* ===================================================================== *)
(** * [os.path.splitext]: root and extension                              *)
(* ===================================================================== *)

Module SplitextFacts.
Import OsPath.

Lemma substring_all s : substring 0 (String.length s) s = s.
Proof. induction s as [|c s IH]; simpl; congruence. Qed.

Lemma substring_sdrop n s :
  substring n (String.length s - n) s = sdrop n s.
Proof.
  revert n. induction s as [|c s IH]; intros [|n]; simpl; auto.
  - f_equal. apply substring_all.
Qed.

Lemma take_drop n s :
  substring 0 n s ++ substring n (String.length s - n) s = s.
Proof.
  revert n. induction s as [|c s IH]; intros [|n]; simpl; auto.
  - f_equal. apply substring_all.
  - f_equal. apply IH.
Qed.

Lemma sdrop_app a b : sdrop (String.length a) (a ++ b) = b.
Proof. induction a; simpl; auto. Qed.

Lemma sdrop_app_more a x b j :
  sdrop (String.length a + S j) (a ++ String x b) = sdrop j b.
Proof. induction a; simpl; auto. Qed.

Lemma take_app a b : substring 0 (String.length a) (a ++ b) = a.
Proof.
  induction a as [|c a IH]; simpl.
  - destruct b; reflexivity.
  - now rewrite IH.
Qed.

Lemma all_chars_sdrop q n s :
  all_chars q s = true -> all_chars q (sdrop n s) = true.
Proof.
  revert s. induction n as [|n IH]; intros [|c s]; simpl; auto.
  intros Hq. apply andb_prop in Hq as [_ Hq]. auto.
Qed.

Lemma append_length a b :
  String.length (a ++ b) = (String.length a + String.length b)%nat.
Proof. induction a; simpl; auto. Qed.

(** [rfind]: no occurrence, or the place of the last one. *)
Lemma rfind_from_cases c s :
  forall i found,
  (rfind_from c i found s = found /\ all_chars (not_char c) s = true)
  \/ (exists a b, s = a ++ String c b /\ all_chars (not_char c) b = true
                  /\ rfind_from c i found s = i + Z.of_nat (String.length a)).
Proof.
  induction s as [|x s IH]; intros i found; simpl.
  - left. auto.
  - destruct (IH (i + 1) (if Ascii.eqb x c then i else found))
      as [[E Hn] | (a & b & -> & Hb & E)].
    + destruct (Ascii.eqb x c) eqn:Ex.
      * right. apply Ascii.eqb_eq in Ex. subst x. exists "", s.
        repeat split; auto. rewrite E. simpl. lia.
      * left. unfold not_char at 1. rewrite Ex. auto.
    + right. exists (String x a), b. repeat split; auto.
      rewrite E. simpl String.length. lia.
Qed.

Lemma rfind_cases c s :
  (rfind c s = -1 /\ all_chars (not_char c) s = true)
  \/ (exists a b, s = a ++ String c b /\ all_chars (not_char c) b = true
                  /\ rfind c s = Z.of_nat (String.length a)).
Proof. apply (rfind_from_cases c s 0 (-1)). Qed.

Lemma rfind_from_absent c s :
  forall i found, all_chars (not_char c) s = true -> rfind_from c i found s = found.
Proof.
  induction s as [|x s IH]; intros i found Hs; simpl; auto.
  simpl in Hs. apply andb_prop in Hs as [Hx Hs].
  unfold not_char in Hx. apply negb_true_iff in Hx. rewrite Hx. auto.
Qed.

Lemma rfind_from_app c a b :
  forall i found,
  rfind_from c i found (a ++ b)
  = rfind_from c (i + Z.of_nat (String.length a)) (rfind_from c i found a) b.
Proof.
  induction a as [|x a IH]; intros i found; simpl String.length.
  - simpl. f_equal. lia.
  - simpl. rewrite IH. f_equal. lia.
Qed.

Lemma rfind_from_bound c s :
  forall i found, found < i ->
  rfind_from c i found s < i + Z.of_nat (String.length s).
Proof.
  induction s as [|x s IH]; intros i found Hf; simpl String.length.
  - simpl. lia.
  - simpl rfind_from.
    specialize (IH (i + 1) (if Ascii.eqb x c then i else found)).
    destruct (Ascii.eqb x c); lia.
Qed.

(** The part of [s] from index [k] on has no [c] when the last [c] of
    [s] is before [k]. *)
Lemma rfind_before c s k :
  rfind c s < Z.of_nat k -> all_chars (not_char c) (sdrop k s) = true.
Proof.
  destruct (rfind_cases c s) as [[_ Hn] | (a & b & -> & Hb & E)]; intros Hk.
  - now apply all_chars_sdrop.
  - rewrite E in Hk.
    replace k with (String.length a + S (k - String.length a - 1))%nat by lia.
    rewrite sdrop_app_more. now apply all_chars_sdrop.
Qed.

Lemma skip_dots_cases n p i k :
  skip_dots n p i k = (p, "")
  \/ (skip_dots n p i k = (take k p, drop k p) /\ (0 < n)%nat).
Proof.
  revert i. induction n as [|n IH]; intros i; simpl; auto.
  destruct (negb _).
  - right. split; [reflexivity | lia].
  - destruct (IH (i + 1)) as [E | [E _]]; rewrite E; auto.
    right. split; [reflexivity | lia].
Qed.

(** The loop stops at the first character that is not a dot. *)
Lemma skip_dots_found n p i k j :
  (j < n)%nat ->
  (char_at (i + Z.of_nat j) p =? ".")%string = false ->
  skip_dots n p i k = (take k p, drop k p).
Proof.
  revert i j. induction n as [|n IH]; intros i j Hj Hc; [lia|].
  simpl. destruct (char_at i p =? ".")%string eqn:E; [|reflexivity].
  simpl. destruct j as [|j].
  - rewrite Z.add_0_r in Hc. congruence.
  - apply (IH (i + 1) j); [lia|].
    replace (i + 1 + Z.of_nat j) with (i + Z.of_nat (S j)) by lia. exact Hc.
Qed.

End SplitextFacts.

(** X19. [splitext] only cuts: the root followed by the extension is the
    path, on both platforms. *)
Theorem splitext_join (os : OsPath.platform) (p : string) :
  fst (OsPath.splitext os p) ++ snd (OsPath.splitext os p) = p.
Proof.
  unfold OsPath.splitext.
  match goal with |- context [if ?b then _ else _] => destruct b end.
  - match goal with |- context [OsPath.skip_dots ?n ?p ?i ?k] =>
      destruct (SplitextFacts.skip_dots_cases n p i k) as [E | [E _]];
        rewrite E
    end.
    + cbn [fst snd]. apply append_empty_r.
    + cbn [fst snd]. apply SplitextFacts.take_drop.
  - cbn [fst snd]. apply append_empty_r.
Qed.

Lemma rfind_ge c s : -1 <= OsPath.rfind c s.
Proof.
  destruct (SplitextFacts.rfind_cases c s) as [[E _] | (a & b & _ & _ & E)];
    rewrite E; lia.
Qed.

Lemma all_chars_and p q s :
  all_chars p s = true -> all_chars q s = true ->
  all_chars (fun x => p x && q x) s = true.
Proof.
  induction s as [|c s IH]; simpl; auto.
  intros H1 H2. apply andb_prop in H1 as [-> H1]. apply andb_prop in H2 as [-> H2].
  simpl. auto.
Qed.

Lemma all_chars_true s : all_chars (fun _ => true) s = true.
Proof. induction s; simpl; auto. Qed.

(** The last separator of the path, as [splitext] computes it. *)
Lemma no_separator_after os p k :
  match OsPath.altsep os with
  | Some a => Z.max (OsPath.rfind (OsPath.sep os) p) (OsPath.rfind a p)
  | None => OsPath.rfind (OsPath.sep os) p
  end < Z.of_nat k ->
  all_chars (not_separator os) (sdrop k p) = true.
Proof.
  intros Hk. unfold not_separator.
  destruct (OsPath.altsep os) as [a|].
  - apply all_chars_and; apply SplitextFacts.rfind_before; lia.
  - apply all_chars_and; [apply SplitextFacts.rfind_before; lia|].
    apply all_chars_true.
Qed.

(** X20. The extension that [splitext] returns is empty, or a dot
    followed by characters among which there is no dot and no separator
    of the platform; in the second case the root is not empty. *)
Theorem splitext_extension (os : OsPath.platform) (p : string) :
  snd (OsPath.splitext os p) = ""
  \/ exists e,
       snd (OsPath.splitext os p) = String "." e
       /\ all_chars (not_char ".") e = true
       /\ all_chars (not_separator os) e = true
       /\ fst (OsPath.splitext os p) <> "".
Proof.
  unfold OsPath.splitext.
  set (sepIndex := match OsPath.altsep os with
                   | Some a => Z.max (OsPath.rfind (OsPath.sep os) p)
                                     (OsPath.rfind a p)
                   | None => OsPath.rfind (OsPath.sep os) p
                   end).
  assert (Hsep : -1 <= sepIndex).
  { unfold sepIndex. pose proof (rfind_ge (OsPath.sep os) p).
    destruct (OsPath.altsep os); lia. }
  destruct (sepIndex <? OsPath.rfind "." p) eqn:Ec; [|left; reflexivity].
  apply Z.ltb_lt in Ec.
  destruct (SplitextFacts.skip_dots_cases
              (Z.to_nat (OsPath.rfind "." p - (sepIndex + 1))) p (sepIndex + 1)
              (OsPath.rfind "." p)) as [E | [E Hn]]; rewrite E;
    [left; reflexivity|].
  right. cbn [fst snd].
  destruct (SplitextFacts.rfind_cases "." p)
    as [[Ed _] | (a & b & Ep & Hb & Ed)]; [lia|].
  assert (Hdrop : OsPath.drop (OsPath.rfind "." p) p = String "." b).
  { unfold OsPath.drop. rewrite Ed, Nat2Z.id, SplitextFacts.substring_sdrop.
    rewrite Ep. apply SplitextFacts.sdrop_app. }
  exists b. split; [exact Hdrop|]. split; [exact Hb|]. split.
  - pose proof (no_separator_after os p (String.length a)) as Hs.
    fold sepIndex in Hs. rewrite <- Ed in Hs. specialize (Hs Ec).
    rewrite Ep in Hs. rewrite SplitextFacts.sdrop_app in Hs.
    simpl in Hs. apply andb_prop in Hs. apply Hs.
  - unfold OsPath.take. rewrite Ed, Nat2Z.id. rewrite Ep.
    rewrite SplitextFacts.take_app. destruct a; [|discriminate].
    simpl in Ed. lia.
Qed.

Lemma all_chars_impl (p q : ascii -> bool) s :
  (forall x, p x = true -> q x = true) ->
  all_chars p s = true -> all_chars q s = true.
Proof.
  intros Hpq. induction s as [|c s IH]; simpl; auto.
  intros H. apply andb_prop in H as [Hc Hs]. rewrite (Hpq _ Hc). auto.
Qed.

Lemma not_separator_sep os s :
  all_chars (not_separator os) s = true ->
  all_chars (not_char (OsPath.sep os)) s = true.
Proof.
  apply all_chars_impl. intros x Hx. unfold not_separator in Hx.
  now apply andb_prop in Hx.
Qed.

Lemma not_separator_altsep os a s :
  OsPath.altsep os = Some a ->
  all_chars (not_separator os) s = true ->
  all_chars (not_char a) s = true.
Proof.
  intros Ha. apply all_chars_impl. intros x Hx. unfold not_separator in Hx.
  rewrite Ha in Hx. now apply andb_prop in Hx.
Qed.

Lemma char_at_app a c b :
  OsPath.char_at (Z.of_nat (String.length a)) (a ++ String c b) = String c "".
Proof.
  unfold OsPath.char_at. rewrite Nat2Z.id.
  induction a as [|x a IH]; simpl; auto. destruct b; reflexivity.
Qed.

(** [rfind] in a path whose tail has no [x]: the last [x] is in [dir]. *)
Lemma rfind_in_dir x dir tail :
  all_chars (not_char x) tail = true ->
  OsPath.rfind x (dir ++ tail) < Z.of_nat (String.length dir).
Proof.
  intros Ht. unfold OsPath.rfind.
  rewrite SplitextFacts.rfind_from_app, SplitextFacts.rfind_from_absent
    by assumption.
  apply (SplitextFacts.rfind_from_bound x dir 0 (-1)). lia.
Qed.

(** [splitext] on a file name that does not start with a dot. *)
Lemma splitext_of_file_name (os : OsPath.platform) (dir name e : string)
    (c : ascii) (rest : string) :
  name = String c rest ->
  not_char "." c = true ->
  all_chars (not_separator os) name = true ->
  all_chars (not_separator os) e = true ->
  all_chars (not_char ".") e = true ->
  OsPath.splitext os (dir ++ name ++ "." ++ e) = (dir ++ name, "." ++ e).
Proof.
  intros Hname Hc Hn He Hd.
  set (p := dir ++ name ++ "." ++ e).
  assert (Hp : p = (dir ++ name) ++ String "." e)
    by (unfold p; now rewrite append_assoc).
  set (L := String.length (dir ++ name)).
  assert (HL : Z.of_nat (String.length dir) < Z.of_nat L).
  { unfold L. rewrite SplitextFacts.append_length, Hname. simpl. lia. }
  assert (Hdot : OsPath.rfind "." p = Z.of_nat L).
  { rewrite Hp. unfold OsPath.rfind. rewrite SplitextFacts.rfind_from_app.
    simpl. now rewrite SplitextFacts.rfind_from_absent. }
  assert (Htail : all_chars (not_separator os) (name ++ "." ++ e) = true).
  { rewrite !all_chars_app, Hn, He. simpl.
    destruct os; reflexivity. }
  assert (Hsep : -1 <= match OsPath.altsep os with
                       | Some a => Z.max (OsPath.rfind (OsPath.sep os) p)
                                         (OsPath.rfind a p)
                       | None => OsPath.rfind (OsPath.sep os) p
                       end < Z.of_nat (String.length dir)).
  { pose proof (rfind_ge (OsPath.sep os) p).
    pose proof (rfind_in_dir (OsPath.sep os) dir _
                  (not_separator_sep os _ Htail)) as H1. fold p in H1.
    destruct (OsPath.altsep os) as [a|] eqn:Ea; [|lia].
    pose proof (rfind_in_dir a dir _ (not_separator_altsep os a _ Ea Htail))
      as H2. fold p in H2. lia. }
  unfold OsPath.splitext. fold p.
  set (sepIndex := match OsPath.altsep os with
                   | Some a => Z.max (OsPath.rfind (OsPath.sep os) p)
                                     (OsPath.rfind a p)
                   | None => OsPath.rfind (OsPath.sep os) p
                   end) in *.
  rewrite Hdot.
  destruct (sepIndex <? Z.of_nat L) eqn:Ec; [|apply Z.ltb_ge in Ec; lia].
  rewrite (SplitextFacts.skip_dots_found _ p (sepIndex + 1) (Z.of_nat L)
             (Z.to_nat (Z.of_nat (String.length dir) - (sepIndex + 1)))).
  - unfold OsPath.take, OsPath.drop.
    rewrite Nat2Z.id, SplitextFacts.substring_sdrop, Hp.
    unfold L. now rewrite SplitextFacts.take_app, SplitextFacts.sdrop_app.
  - lia.
  - replace (sepIndex + 1
             + Z.of_nat (Z.to_nat (Z.of_nat (String.length dir) - (sepIndex + 1))))
      with (Z.of_nat (String.length dir)) by lia.
    unfold p. rewrite Hname. simpl append. rewrite char_at_app.
    simpl. unfold not_char in Hc. apply negb_true_iff in Hc. now rewrite Hc.
Qed.

(** X21. A file name that does not start with a dot keeps its last
    suffix as extension: for a path [dir ++ name ++ "." ++ e] where
    [name] starts with a character that is not a dot, [name] and [e]
    hold no separator and [e] no dot, [splitext] returns
    [dir ++ name] and ["." ++ e], whatever [dir] is. *)
Theorem splitext_file_name (os : OsPath.platform) (dir name e : string)
    (c : ascii) (rest : string) :
  name = String c rest ->
  not_char "." c = true ->
  all_chars (not_separator os) name = true ->
  all_chars (not_separator os) e = true ->
  all_chars (not_char ".") e = true ->
  OsPath.splitext os (dir ++ name ++ "." ++ e) = (dir ++ name, "." ++ e).
Proof. apply splitext_of_file_name. Qed.

Lemma video_not_image ext :
  In ext video_extensions -> ~ In ext image_extensions.
Proof.
  intros Hv Hi. apply mem_In in Hi.
  simpl in Hv. repeat destruct Hv as [<- | Hv]; try discriminate; auto.
Qed.

(** X22. A path that ends with a file name, a dot and a suffix (the file
    name not starting with a dot, no separator in the file name or the
    suffix, no dot in the suffix) is routed by that suffix in lower
    case: to the image pipeline for jpg, jpeg, png, bmp and gif, to the
    video pipeline for mp4, mov, avi, mkv and wmv, and to the
    [ValueError] otherwise. *)
Theorem dispatcher_by_suffix `{Pillow} `{!Media} (os : OsPath.platform)
    (dir name e : string) (c : ascii) (rest : string)
    (out text font_path : string) (font_size : Z) (text_color : Color)
    (total_duration : float) (method : string) (w : World) :
  name = String c rest ->
  not_char "." c = true ->
  all_chars (not_separator os) name = true ->
  all_chars (not_separator os) e = true ->
  all_chars (not_char ".") e = true ->
  let input_path := dir ++ name ++ "." ++ e in
  let run := create_video_from_media_with_text os input_path out text
               font_path font_size text_color total_duration method w in
  (In (String "." (lower e)) image_extensions ->
   run = create_video_from_image_with_text input_path out text font_path
           font_size text_color total_duration method w)
  /\ (In (String "." (lower e)) video_extensions ->
      run = create_video_from_video_with_text input_path out text font_path
              font_size text_color total_duration method w)
  /\ (~ In (String "." (lower e)) image_extensions ->
      ~ In (String "." (lower e)) video_extensions ->
      run = (w, Raise (ValueError "Unsupported file format"))).
Proof.
  intros Hname Hc Hn He Hd input_path run. subst run.
  unfold create_video_from_media_with_text. unfold input_path.
  rewrite (splitext_of_file_name os dir name e c rest Hname Hc Hn He Hd).
  cbn [snd]. change (lower ("." ++ e)) with (String "." (lower e)).
  split; [|split].
  - intros Hi. apply mem_In in Hi. now rewrite Hi.
  - intros Hv. pose proof (video_not_image _ Hv) as Hi.
    apply mem_not_In in Hi. apply mem_In in Hv. now rewrite Hi, Hv.
  - intros Hi Hv. apply mem_not_In in Hi, Hv. now rewrite Hi, Hv.
Qed.

(* ===================================================================== *)
(** * Dispatcher: the extension, without regard to case                   *)
(* ===================================================================== *)

Lemma all_ascii_In c : In c all_ascii.
Proof.
  unfold all_ascii. rewrite <- (ascii_nat_embedding c).
  apply in_map, in_seq. pose proof (nat_ascii_bounded c). lia.
Qed.

(** Against a lower-case letter or a digit, [str.lower] then equality is
    equality without regard to case: checked on all pairs of
    characters. *)
Lemma lower_char_nocase c d :
  is_lower_alnum d = true ->
  Ascii.eqb (lower_char c) d = char_eq_nocase c d.
Proof.
  assert (Hall : forallb (fun c => forallb (fun d =>
                   implb (is_lower_alnum d)
                         (Bool.eqb (Ascii.eqb (lower_char c) d)
                                   (char_eq_nocase c d)))
                   all_ascii) all_ascii = true)
    by (vm_compute; reflexivity).
  rewrite forallb_forall in Hall. specialize (Hall c (all_ascii_In c)).
  rewrite forallb_forall in Hall. specialize (Hall d (all_ascii_In d)).
  intros Hd. rewrite Hd in Hall. simpl in Hall.
  now apply Bool.eqb_prop in Hall.
Qed.

Lemma lower_nocase e :
  forall x, all_chars is_lower_alnum x = true ->
  (lower e = x <-> eq_nocase e x = true).
Proof.
  induction e as [|c e IH]; intros [|d x] Hx; simpl;
    try (split; [discriminate | discriminate]); try tauto.
  simpl in Hx. apply andb_prop in Hx as [Hd Hx].
  rewrite <- (lower_char_nocase c d Hd), andb_true_iff, <- (IH x Hx),
    Ascii.eqb_eq.
  split.
  - intros E. inversion E. auto.
  - intros [-> ->]. reflexivity.
Qed.

Lemma suffixes_lower_alnum x :
  In x (image_suffixes ++ video_suffixes) ->
  all_chars is_lower_alnum x = true.
Proof.
  intros Hx. simpl in Hx.
  repeat destruct Hx as [<- | Hx]; try reflexivity. contradiction.
Qed.

Lemma image_extensions_suffixes :
  image_extensions = map (String ".") image_suffixes.
Proof. reflexivity. Qed.

Lemma video_extensions_suffixes :
  video_extensions = map (String ".") video_suffixes.
Proof. reflexivity. Qed.

Lemma In_dotted x l : In (String "." x) (map (String ".") l) <-> In x l.
Proof.
  rewrite in_map_iff. split.
  - intros (y & E & Hy). inversion E. now subst.
  - intros Hx. eauto.
Qed.

(** A path without a dot has no extension. *)
Lemma splitext_no_dot os p :
  all_chars (not_char ".") p = true -> OsPath.splitext os p = (p, "").
Proof.
  intros Hp. unfold OsPath.splitext.
  assert (Hd : OsPath.rfind "." p = -1)
    by (apply SplitextFacts.rfind_from_absent; exact Hp).
  rewrite Hd.
  pose proof (rfind_ge (OsPath.sep os) p) as Hs.
  destruct (_ <? -1) eqn:E; [|reflexivity].
  apply Z.ltb_lt in E. destruct (OsPath.altsep os); lia.
Qed.

(** C8. The dispatcher classifies by the extension of the path, without
    regard to the case of its letters.  Every run takes one of three
    routes: the image pipeline, the video pipeline, or a [ValueError]
    raised with the world as it was, nothing opened, decoded or drawn.
    For a path that ends with a file name, a dot and a suffix (the file
    name not starting with a dot, no separator in the file name or the
    suffix, no dot in the suffix), the suffix decides: jpg, jpeg, png,
    bmp or gif in any case of letters runs the image pipeline, mp4, mov,
    avi, mkv or wmv in any case runs the video pipeline, and any other
    suffix raises the error.  A path without a dot raises it too. *)
Theorem dispatcher_routes `{Pillow} `{!Media} (os : OsPath.platform)
    (input_path output_video_path text font_path : string) (font_size : Z)
    (text_color : Color) (total_duration : float) (method : string) (w : World) :
  let run :=
    create_video_from_media_with_text os input_path output_video_path text
      font_path font_size text_color total_duration method w in
  let image_run :=
    create_video_from_image_with_text input_path output_video_path text
      font_path font_size text_color total_duration method w in
  let video_run :=
    create_video_from_video_with_text input_path output_video_path text
      font_path font_size text_color total_duration method w in
  let unsupported := (w, Raise (ValueError "Unsupported file format")) in
  (run = image_run \/ run = video_run \/ run = unsupported)
  /\ (forall dir name e c rest,
        input_path = dir ++ name ++ "." ++ e ->
        name = String c rest ->
        not_char "." c = true ->
        all_chars (not_separator os) name = true ->
        all_chars (not_separator os) e = true ->
        all_chars (not_char ".") e = true ->
        (forall x, In x image_suffixes -> eq_nocase e x = true ->
                   run = image_run)
        /\ (forall x, In x video_suffixes -> eq_nocase e x = true ->
                      run = video_run)
        /\ ((forall x, In x (image_suffixes ++ video_suffixes) ->
                       eq_nocase e x = false) ->
            run = unsupported))
  /\ (all_chars (not_char ".") input_path = true -> run = unsupported).
Proof.
  intros run image_run video_run unsupported.
  split; [|split].
  - destruct (dispatcher_cases os input_path output_video_path text font_path
                font_size text_color total_duration method w)
      as [[_ E] | [(_ & _ & E) | (_ & _ & E)]]; auto.
  - intros dir name e c rest Hp Hname Hc Hn He Hd.
    assert (Hext : lower (snd (OsPath.splitext os input_path))
                   = String "." (lower e)).
    { rewrite Hp,
        (splitext_of_file_name os dir name e c rest Hname Hc Hn He Hd).
      reflexivity. }
    assert (Hlow : forall x, In x (image_suffixes ++ video_suffixes) ->
                             (lower e = x <-> eq_nocase e x = true)).
    { intros x Hx. apply lower_nocase. now apply suffixes_lower_alnum. }
    unfold run, create_video_from_media_with_text. rewrite Hext.
    split; [|split].
    + intros x Hx Hex. apply Hlow in Hex; [|apply in_or_app; auto].
      assert (Hi : mem (String "." (lower e)) image_extensions = true).
      { apply mem_In. rewrite image_extensions_suffixes, In_dotted.
        now rewrite Hex. }
      now rewrite Hi.
    + intros x Hx Hex. apply Hlow in Hex; [|apply in_or_app; auto].
      assert (Hv : In (String "." (lower e)) video_extensions).
      { rewrite video_extensions_suffixes, In_dotted. now rewrite Hex. }
      pose proof (video_not_image _ Hv) as Hi.
      apply mem_not_In in Hi. apply mem_In in Hv. now rewrite Hi, Hv.
    + intros Hnone.
      assert (Hi : mem (String "." (lower e)) image_extensions = false).
      { apply mem_not_In. rewrite image_extensions_suffixes, In_dotted.
        intros Hin.
        assert (Hx : In (lower e) (image_suffixes ++ video_suffixes))
          by (apply in_or_app; auto).
        pose proof (proj1 (Hlow _ Hx) eq_refl) as Ht.
        rewrite (Hnone _ Hx) in Ht. discriminate. }
      assert (Hv : mem (String "." (lower e)) video_extensions = false).
      { apply mem_not_In. rewrite video_extensions_suffixes, In_dotted.
        intros Hin.
        assert (Hx : In (lower e) (image_suffixes ++ video_suffixes))
          by (apply in_or_app; auto).
        pose proof (proj1 (Hlow _ Hx) eq_refl) as Ht.
        rewrite (Hnone _ Hx) in Ht. discriminate. }
      now rewrite Hi, Hv.
  - intros Hp. unfold run, create_video_from_media_with_text.
    rewrite (splitext_no_dot os input_path Hp). reflexivity.
Qed.

(* ===================================================================== *)
(** * The further theorems at work on the sample collaborators            *)
(* ===================================================================== *)

Lemma split_sentences_no_delimiter_witness :
  all_chars not_delim "  hello world " = true
  /\ strip "  hello world " <> ""
  /\ split_sentences "  hello world " = [strip "  hello world "].
Proof.
  assert (Hne : strip "  hello world " <> "") by (vm_compute; discriminate).
  split; [reflexivity|]. split; [exact Hne|].
  apply (split_sentences_no_delimiter "  hello world " eq_refl Hne).
Defined.

Lemma split_sentences_unit_stable_witness :
  In "B!" (split_sentences "A. B! C, D")
  /\ split_sentences "B!" = ["B!"].
Proof.
  assert (Hin : In "B!" (split_sentences "A. B! C, D"))
    by (vm_compute; auto).
  split; [exact Hin|].
  apply (split_sentences_unit_stable "A. B! C, D" "B!" Hin).
Defined.

Lemma render_text_blank_witness :
  all_chars is_space "   " = true
  /\ @render_text sample_pillow 50 sample_base "   " (0, 0, 0) = sample_base.
Proof.
  split; [reflexivity|].
  apply (@render_text_blank sample_pillow 50 sample_base "   " (0, 0, 0) eq_refl).
Defined.

Lemma letterbox_returns_iff_witness :
  0 < fst (size sample_landscape) /\ 0 < snd (size sample_landscape)
  /\ exists im',
       @resize_to_aspect_ratio_with_zoom sample_pillow sample_landscape
         default_aspect_ratio default_resolution = Ok im'
       /\ size im' = default_resolution.
Proof.
  split; [reflexivity|]. split; [reflexivity|].
  destruct (@letterbox_returns_iff sample_pillow sample_landscape
              eq_refl eq_refl) as [[_ Hok] | [_ Hr]].
  - exact Hok.
  - discriminate Hr.
Defined.

Lemma letterbox_zero_height_witness :
  snd (size (@Build_Image sample_pillow (640, 0) [])) = 0
  /\ resize_to_aspect_ratio_with_zoom (@Build_Image sample_pillow (640, 0) [])
       default_aspect_ratio default_resolution
     = Raise ZeroDivisionError.
Proof.
  split; [reflexivity|].
  apply (@letterbox_zero_height sample_pillow
           (@Build_Image sample_pillow (640, 0) [])
           default_aspect_ratio default_resolution eq_refl).
Defined.

Lemma frame_loop_independent_witness :
  exists w' arrs,
    @truetype sample_pillow "font.ttf" 50 = Ok 50
    /\ @frame_loop sample_pillow [sample_landscape; sample_base]
         "Hi." "zoom" "font.ttf" 50 (0, 0, 0) empty_world = (w', Ok arrs)
    /\ List.length arrs = 2%nat.
Proof.
  eexists. eexists. split; [reflexivity|].
  assert (E : @frame_loop sample_pillow
                [sample_landscape; sample_base] "Hi." "zoom" "font.ttf" 50
                (0, 0, 0) empty_world
              = (fst (@frame_loop sample_pillow
                        [sample_landscape; sample_base] "Hi." "zoom" "font.ttf"
                        50 (0, 0, 0) empty_world),
                 Ok (match snd (@frame_loop sample_pillow
                                  [sample_landscape; sample_base] "Hi." "zoom"
                                  "font.ttf" 50 (0, 0, 0) empty_world) with
                     | Ok a => a
                     | Raise _ => []
                     end)))
    by reflexivity.
  split; [exact E|].
  exact (proj1 (@frame_loop_independent sample_pillow sample_media 50
                  [sample_landscape; sample_base] "Hi." "zoom" "font.ttf" 50
                  (0, 0, 0) empty_world _ _ eq_refl E)).
Defined.

Lemma image_path_run_witness :
  exists t,
    @image_open sample_pillow sample_media "photo.jpg" = Ok sample_landscape
    /\ @transform sample_pillow "zoom" sample_landscape = Ok t
    /\ @truetype sample_pillow "font.ttf" 50 = Ok 50
    /\ split_sentences "Hi. Yo!" <> []
    /\ snd (@create_video_from_image_with_text sample_pillow sample_media
              "photo.jpg" "out.mp4" "Hi. Yo!" "font.ttf" 50 (0, 0, 0)
              (Z_to_float 10) "zoom" empty_world) = Ok tt
    /\ size t = default_resolution.
Proof.
  assert (Hne : split_sentences "Hi. Yo!" <> [])
    by (intros E; vm_compute in E; discriminate E).
  eexists. split; [reflexivity|]. split; [reflexivity|]. split; [reflexivity|].
  split; [exact Hne|].
  destruct (@image_path_run sample_pillow sample_media "photo.jpg" "out.mp4"
              "Hi. Yo!" "font.ttf" 50 (0, 0, 0) (Z_to_float 10) "zoom"
              empty_world sample_landscape _ 50 eq_refl eq_refl eq_refl Hne)
    as (_ & _ & Hret & Hsz & _).
  split; [exact Hret | exact Hsz].
Defined.

Lemma splitext_file_name_witness :
  "Photo" = String "P" "hoto"
  /\ not_char "." "P" = true
  /\ all_chars (not_separator OsPath.Posix) "Photo" = true
  /\ all_chars (not_separator OsPath.Posix) "JPG" = true
  /\ all_chars (not_char ".") "JPG" = true
  /\ OsPath.splitext OsPath.Posix ("shots.2024/" ++ "Photo" ++ "." ++ "JPG")
     = ("shots.2024/" ++ "Photo", "." ++ "JPG").
Proof.
  repeat (split; [reflexivity|]).
  apply (splitext_file_name OsPath.Posix "shots.2024/" "Photo" "JPG" "P" "hoto");
    reflexivity.
Defined.

Lemma dispatcher_by_suffix_witness :
  "clip" = String "c" "lip"
  /\ not_char "." "c" = true
  /\ all_chars (not_separator OsPath.Windows) "clip" = true
  /\ all_chars (not_separator OsPath.Windows) "MoV" = true
  /\ all_chars (not_char ".") "MoV" = true
  /\ In (String "." (lower "MoV")) video_extensions
  /\ @create_video_from_media_with_text sample_pillow sample_media
       OsPath.Windows ("R:\takes\" ++ "clip" ++ "." ++ "MoV") "out.mp4" ""
       "font.ttf" 50 (0, 0, 0) (Z_to_float 15) "zoom" empty_world
     = @create_video_from_video_with_text sample_pillow sample_media
         ("R:\takes\" ++ "clip" ++ "." ++ "MoV") "out.mp4" "" "font.ttf" 50
         (0, 0, 0) (Z_to_float 15) "zoom" empty_world.
Proof.
  assert (Hin : In (String "." (lower "MoV")) video_extensions)
    by (vm_compute; auto).
  repeat (split; [reflexivity|]). split; [exact Hin|].
  exact (proj1 (proj2 (@dispatcher_by_suffix sample_pillow sample_media
                         OsPath.Windows "R:\takes\" "clip" "MoV" "c" "lip"
                         "out.mp4" "" "font.ttf" 50 (0, 0, 0) (Z_to_float 15) "zoom"
                         empty_world eq_refl eq_refl eq_refl eq_refl eq_refl))
               Hin).
Defined.

(* ===================================================================== *)
(** * Durations of the units                                              *)
(* ===================================================================== *)

Section DurationFacts.
Context `{Pillow} `{!Media}.


End DurationFacts.




Lemma dispatcher_routes_witness :
  "Photo" = String "P" "hoto"
  /\ In "jpg" image_suffixes
  /\ eq_nocase "JPG" "jpg" = true
  /\ @create_video_from_media_with_text sample_pillow sample_media OsPath.Posix
       ("shots.2024/" ++ "Photo" ++ "." ++ "JPG") "out.mp4" "Hi." "font.ttf" 50
       (0, 0, 0) (Z_to_float 15) "zoom" empty_world
     = @create_video_from_image_with_text sample_pillow sample_media
         ("shots.2024/" ++ "Photo" ++ "." ++ "JPG") "out.mp4" "Hi." "font.ttf" 50
         (0, 0, 0) (Z_to_float 15) "zoom" empty_world.
Proof.
  assert (Hin : In "jpg" image_suffixes) by (left; reflexivity).
  split; [reflexivity|]. split; [exact Hin|]. split; [reflexivity|].
  exact (proj1 (proj1 (proj2 (@dispatcher_routes sample_pillow sample_media
                  OsPath.Posix ("shots.2024/" ++ "Photo" ++ "." ++ "JPG")
                  "out.mp4" "Hi." "font.ttf" 50 (0, 0, 0) (Z_to_float 15)
                  "zoom" empty_world))
                  "shots.2024/" "Photo" "JPG" "P"%char "hoto" eq_refl eq_refl
                  eq_refl eq_refl eq_refl eq_refl)
               "jpg" Hin eq_refl).
Defined.

(** The sample run of the image path: the encoder's lines are printed
    and the file is left. *)
Example image_path_sample_run :
  let r := @create_video_from_image_with_text sample_pillow sample_media
             "photo.jpg" "out.mp4" "Hi. Yo!" "font.ttf" 50 (0, 0, 0)
             (Z_to_float 10) "zoom" empty_world in
  snd r = Ok tt
  /\ stdout (fst r) = ["Moviepy - Building video out.mp4.";
                       "Moviepy - Writing video out.mp4"; "";
                       "Moviepy - Done !"; "Moviepy - video ready out.mp4"]
  /\ map fst (files (fst r)) = ["out.mp4"].
Proof. vm_compute. repeat split. Qed.
